(** * Buckley-Leverett PINN: a verification development

    Shallow embedding of [Buckley-Leverett-Problem/Buckley-Leverett.py].

    Conventions of the model.
    - A torch tensor that carries autograd history is a matrix of [node]s: the
      expression graph recorded by torch, over the leaves it was computed
      from.  Its numerical content is obtained in an environment giving the
      current content of the leaves.
    - [torch.autograd.grad] is reverse-mode propagation over that graph and,
      as [create_graph=True] asks, returns graph nodes again.
    - A graph has two readings.  [value] evaluates it in the real numbers:
      it says which function of the inputs the program computes, and is what
      derivatives are taken of.  [xvalue] evaluates it on floats with their
      special values: results beyond the float32 range overflow to an
      infinity, and infinities and nan propagate as in IEEE 754.  The two
      agree as long as every intermediate result stays in range
      ([xvalue_in_range]).  Statements about the sign of a loss, or about a
      loss being zero, are made with [xvalue].  Rounding of results in range
      is not modelled. *)

From Stdlib Require Import String.
From Stdlib Require Import Reals Lra Lia List Arith Bool.
Import ListNotations.
Open Scope R_scope.

(** ** Elementwise arithmetic shared by numpy arrays and torch tensors *)

Class Arith (A : Type) := {
  cst : R -> A;
  add : A -> A -> A;
  sub : A -> A -> A;
  mul : A -> A -> A;
  div : A -> A -> A;
  pw : A -> nat -> A;
  tanh_ : A -> A
}.

#[export] Instance Arith_R : Arith R := {
  cst := fun r => r;
  add := Rplus;
  sub := Rminus;
  mul := Rmult;
  div := Rdiv;
  pw := pow;
  tanh_ := tanh
}.

(** ** The autograd graph *)

(** The leaves of the graph: entry [(i, c)] of the batch tensor that was
    created with [requires_grad=True] (line 133), and the [k]-th scalar of
    [model.parameters()]. *)
Inductive leaf : Type :=
| XEntry (i c : nat)
| Theta (k : nat).

Definition leaf_eqb (a b : leaf) : bool :=
  match a, b with
  | XEntry i c, XEntry j d => Nat.eqb i j && Nat.eqb c d
  | Theta k, Theta m => Nat.eqb k m
  | _, _ => false
  end.

Inductive node : Type :=
| Leaf (l : leaf)
| Const (r : R)
| Add (a b : node)
| Sub (a b : node)
| Mul (a b : node)
| Div (a b : node)
| Neg (a : node)
| Pow (a : node) (k : nat)
| Tanh (a : node).

#[export] Instance Arith_node : Arith node := {
  cst := Const;
  add := Add;
  sub := Sub;
  mul := Mul;
  div := Div;
  pw := Pow;
  tanh_ := Tanh
}.

Definition env : Type := leaf -> R.

Fixpoint value (e : env) (n : node) : R :=
  match n with
  | Leaf l => e l
  | Const r => r
  | Add a b => value e a + value e b
  | Sub a b => value e a - value e b
  | Mul a b => value e a * value e b
  | Div a b => value e a / value e b
  | Neg a => - value e a
  | Pow a k => value e a ^ k
  | Tanh a => tanh (value e a)
  end.

(** Reverse-mode propagation: [backprop l n g] is what reaches leaf [l] when
    the incoming gradient [g] is pushed back through [n], with the local rules
    of torch's backward functions (Add, Sub, Mul, Div, Pow with a constant
    exponent, Tanh). *)
Fixpoint backprop (l : leaf) (n : node) (g : node) : node :=
  match n with
  | Leaf l' => if leaf_eqb l l' then g else Const 0
  | Const _ => Const 0
  | Add a b => Add (backprop l a g) (backprop l b g)
  | Sub a b => Add (backprop l a g) (backprop l b (Neg g))
  | Mul a b => Add (backprop l a (Mul g b)) (backprop l b (Mul g a))
  | Div a b =>
      Add (backprop l a (Div g b))
          (backprop l b (Div (Mul (Neg g) a) (Mul b b)))
  | Neg a => backprop l a (Neg g)
  | Pow a k => backprop l a (Mul g (Mul (Const (INR k)) (Pow a (pred k))))
  | Tanh a => backprop l a (Mul g (Sub (Const 1) (Pow (Tanh a) 2)))
  end.

(** No division by zero anywhere in the graph, at the current leaves. *)
Fixpoint wf (e : env) (n : node) : Prop :=
  match n with
  | Leaf _ | Const _ => True
  | Add a b | Sub a b | Mul a b => wf e a /\ wf e b
  | Div a b => wf e a /\ wf e b /\ value e b <> 0
  | Neg a | Pow a _ | Tanh a => wf e a
  end.

Fixpoint mentions (l : leaf) (n : node) : bool :=
  match n with
  | Leaf l' => leaf_eqb l l'
  | Const _ => false
  | Add a b | Sub a b | Mul a b | Div a b => mentions l a || mentions l b
  | Neg a | Pow a _ | Tanh a => mentions l a
  end.

Definition upd (e : env) (l : leaf) (h : R) : env :=
  fun l' => if leaf_eqb l l' then h else e l'.

(** *** Facts about the graph *)

Lemma leaf_eqb_eq (a b : leaf) : leaf_eqb a b = true <-> a = b.
Proof.
  destruct a as [i c|k], b as [j d|m]; simpl; split; intro E; try discriminate.
  - apply andb_true_iff in E as [E1 E2].
    apply Nat.eqb_eq in E1, E2. now subst.
  - injection E as -> ->. now rewrite !Nat.eqb_refl.
  - apply Nat.eqb_eq in E. now subst.
  - injection E as ->. apply Nat.eqb_refl.
Qed.

Lemma leaf_eqb_refl (a : leaf) : leaf_eqb a a = true.
Proof. now apply leaf_eqb_eq. Qed.

Lemma value_ext (e1 e2 : env) (n : node) :
  (forall l, e1 l = e2 l) -> value e1 n = value e2 n.
Proof.
  intro E. induction n; simpl; congruence.
Qed.

Lemma upd_self (e : env) (l : leaf) (n : node) :
  value (upd e l (e l)) n = value e n.
Proof.
  apply value_ext. intro l'. unfold upd.
  destruct (leaf_eqb l l') eqn:E; [|reflexivity].
  apply leaf_eqb_eq in E. now subst.
Qed.

Lemma cosh_pos (x : R) : 0 < cosh x.
Proof.
  unfold cosh. pose proof (exp_pos x). pose proof (exp_pos (- x)). lra.
Qed.

Lemma tanh_sqr (x : R) : 1 - tanh x ^ 2 = / (cosh x ^ 2).
Proof.
  pose proof (cosh_pos x) as C.
  assert (K : cosh x ^ 2 - sinh x ^ 2 = 1).
  { unfold cosh, sinh.
    replace (((exp x + exp (- x)) / 2) ^ 2 - ((exp x - exp (- x)) / 2) ^ 2)
      with (exp x * exp (- x)) by field.
    rewrite <- exp_plus. replace (x + - x) with 0 by ring. apply exp_0. }
  unfold tanh. field_simplify_eq; [|lra]. lra.
Qed.

Lemma derivable_pt_lim_tanh (x : R) :
  derivable_pt_lim tanh x (1 - tanh x ^ 2).
Proof.
  pose proof (cosh_pos x) as C.
  assert (K : cosh x ^ 2 - sinh x ^ 2 = 1).
  { pose proof (tanh_sqr x) as T. unfold tanh in T.
    assert (cosh x ^ 2 <> 0) by (apply pow_nonzero; lra).
    apply (Rmult_eq_compat_l (cosh x ^ 2)) in T.
    rewrite Rinv_r in T by assumption. rewrite <- T. field. lra. }
  replace (1 - tanh x ^ 2)
    with ((cosh x * cosh x - sinh x * sinh x) / Rsqr (cosh x)).
  - apply (derivable_pt_lim_div sinh cosh x (cosh x) (sinh x)).
    + apply derivable_pt_lim_sinh.
    + apply derivable_pt_lim_cosh.
    + lra.
  - unfold tanh, Rsqr. field. lra.
Qed.

(** Soundness of reverse-mode propagation: the propagated node evaluates to
    the incoming gradient times the derivative of the node's value in the
    leaf. *)
Lemma backprop_sound (e : env) (l : leaf) (n : node) :
  wf e n ->
  exists d : R,
    derivable_pt_lim (fun h => value (upd e l h) n) (e l) d /\
    forall g : node, value e (backprop l n g) = value e g * d.
Proof.
  induction n as [l'|r|a IHa b IHb|a IHa b IHb|a IHa b IHb|a IHa b IHb
                  |a IHa|a IHa k|a IHa]; simpl; intro W.
  - destruct (leaf_eqb l l') eqn:E.
    + exists 1. split.
      * apply derivable_pt_lim_ext with (f := id); [|apply derivable_pt_lim_id].
        intro z. unfold upd. now rewrite E.
      * intro g. lra.
    + exists 0. split.
      * apply derivable_pt_lim_ext with (f := fct_cte (e l'));
          [|apply derivable_pt_lim_const].
        intro z. unfold upd. now rewrite E.
      * intro g. simpl. lra.
  - exists 0. split.
    + apply (derivable_pt_lim_const r).
    + intro g. simpl. lra.
  - destruct W as [Wa Wb].
    destruct (IHa Wa) as (da & Ha & Ga), (IHb Wb) as (db & Hb & Gb).
    exists (da + db). split.
    + exact (derivable_pt_lim_plus _ _ _ _ _ Ha Hb).
    + intro g. simpl. rewrite Ga, Gb. ring.
  - destruct W as [Wa Wb].
    destruct (IHa Wa) as (da & Ha & Ga), (IHb Wb) as (db & Hb & Gb).
    exists (da - db). split.
    + exact (derivable_pt_lim_minus _ _ _ _ _ Ha Hb).
    + intro g. simpl. rewrite Ga, Gb. simpl. ring.
  - destruct W as [Wa Wb].
    destruct (IHa Wa) as (da & Ha & Ga), (IHb Wb) as (db & Hb & Gb).
    exists (da * value e b + value e a * db). split.
    + pose proof (derivable_pt_lim_mult _ _ _ _ _ Ha Hb) as M.
      simpl in M. rewrite !upd_self in M. exact M.
    + intro g. simpl. rewrite Ga, Gb. simpl. ring.
  - destruct W as (Wa & Wb & Nz).
    destruct (IHa Wa) as (da & Ha & Ga), (IHb Wb) as (db & Hb & Gb).
    exists ((da * value e b - db * value e a) / Rsqr (value e b)). split.
    + assert (Nz' : value (upd e l (e l)) b <> 0) by now rewrite upd_self.
      pose proof (derivable_pt_lim_div _ _ _ _ _ Ha Hb Nz') as M.
      simpl in M. rewrite !upd_self in M. exact M.
    + intro g. simpl. rewrite Ga, Gb. simpl. unfold Rsqr. now field.
  - destruct (IHa W) as (da & Ha & Ga).
    exists (- da). split.
    + exact (derivable_pt_lim_opp _ _ _ Ha).
    + intro g. rewrite Ga. simpl. ring.
  - destruct (IHa W) as (da & Ha & Ga).
    exists (INR k * value e a ^ pred k * da). split.
    + pose proof (derivable_pt_lim_pow (value (upd e l (e l)) a) k) as P.
      pose proof (derivable_pt_lim_comp _ _ _ _ _ Ha P) as M.
      rewrite upd_self in M. exact M.
    + intro g. rewrite Ga. simpl. ring.
  - destruct (IHa W) as (da & Ha & Ga).
    exists ((1 - tanh (value e a) ^ 2) * da). split.
    + pose proof (derivable_pt_lim_tanh (value (upd e l (e l)) a)) as P.
      pose proof (derivable_pt_lim_comp _ _ _ _ _ Ha P) as M.
      rewrite upd_self in M. exact M.
    + intro g. rewrite Ga. simpl. ring.
Qed.

(** A node in which the leaf does not occur sends nothing back to it. *)
Lemma backprop_absent (e : env) (l : leaf) (n : node) :
  mentions l n = false -> forall g, value e (backprop l n g) = 0.
Proof.
  induction n as [l'|r|a IHa b IHb|a IHa b IHb|a IHa b IHb|a IHa b IHb
                  |a IHa|a IHa k|a IHa]; simpl; intros M g;
    try (apply orb_false_iff in M as [Ma Mb]);
    try rewrite M; simpl;
    try rewrite (IHa Ma); try rewrite (IHb Mb); try rewrite (IHa M);
    try reflexivity; lra.
Qed.

(** The derivative of [x * x + tanh 0] in [x], at [x = 3]. *)
Example backprop_square :
  let x := Leaf (XEntry 0 0) in
  value (fun _ => 3) (backprop (XEntry 0 0) (Add (Mul x x) (Tanh (Const 0)))
                               (Const 1)) = 6.
Proof. simpl. lra. Qed.

(** ** Tensors and arrays *)

(** A two-dimensional array, row by row; a one-dimensional one is a list. *)
Definition tensor (A : Type) : Type := list (list A).

Definition zip_with {A B C : Type} (f : A -> B -> C)
  (a : list A) (b : list B) : list C :=
  map (fun p => f (fst p) (snd p)) (combine a b).

(** [t[:, :k]], [t[:, k:]] and [t[:, k]]. *)
Definition cols_to {A : Type} (k : nat) (t : tensor A) : tensor A :=
  map (firstn k) t.

Definition cols_from {A : Type} (k : nat) (t : tensor A) : tensor A :=
  map (skipn k) t.

Definition col {A : Type} (k : nat) (d : A) (t : tensor A) : list A :=
  map (fun row => nth k row d) t.

Section Elementwise.
Context {A : Type} `{Arith A}.

Definition sum_list (v : list A) : A := fold_right add (cst 0) v.

(** [v.mean()] of a one-dimensional array and [t.mean()] of a
    two-dimensional one: the sum of all entries over their number.  On an
    empty tensor this is [0 / 0], which is nan on floats; on real numbers
    the quotient has no meaning, and statements about a real mean are made
    for tensors that have an entry. *)
Definition vmean (v : list A) : A :=
  div (sum_list v) (cst (INR (length v))).

Definition mean (t : tensor A) : A := vmean (concat t).

Definition vsub (a b : list A) : list A := zip_with sub a b.
Definition vpow (a : list A) (k : nat) : list A := map (fun x => pw x k) a.

(** Elementwise operations on tensors of one shape, and with a scalar. *)
Definition tadd (a b : tensor A) : tensor A := zip_with (zip_with add) a b.
Definition tdiv (a b : tensor A) : tensor A := zip_with (zip_with div) a b.
Definition tpow (a : tensor A) (k : nat) : tensor A :=
  map (fun row => vpow row k) a.
Definition smul (s : A) (a : tensor A) : tensor A := map (map (mul s)) a.
Definition ssub (s : A) (a : tensor A) : tensor A := map (map (sub s)) a.
End Elementwise.

(** ** The network (class DNN) *)

(** [nn.Linear(in_features, out_features)].  Its weight (out x in, row-major)
    and then its bias occupy consecutive places of [model.parameters()] from
    [offset] on. *)
Record Linear : Type := {
  in_features : nat;
  out_features : nat;
  offset : nat
}.

Inductive Module : Type :=
| LinearM (L : Linear)
| TanhM.

(** [nn.Sequential]: the modules in the order they were added (the names
    given to [add_module] are all distinct and play no role in [forward]). *)
Definition Sequential : Type := list Module.

Definition numel (m : Module) : nat :=
  match m with
  | LinearM L => out_features L * in_features L + out_features L
  | TanhM => 0
  end.

Definition numel_seq (net : Sequential) : nat :=
  fold_right (fun m acc => numel m + acc)%nat 0%nat net.

Definition add_Linear (net : Sequential) (i o : nat) : Sequential :=
  net ++ [LinearM {| in_features := i; out_features := o;
                     offset := numel_seq net |}].

Definition add_Tanh (net : Sequential) : Sequential := net ++ [TanhM].

(** [DNN.__init__] (lines 33-42); [range(2, 7)] is [seq 2 5]. *)
Definition DNN_init : Sequential :=
  let net := [] in
  let net := add_Linear net 2 30 in
  let net := add_Tanh net in
  let net :=
    fold_left (fun net (num : nat) => add_Tanh (add_Linear net 30 30))
              (seq 2 5) net in
  add_Linear net 30 1.

Section Forward.
Context {A : Type} `{Arith A}.
(** The current content of [model.parameters()], scalar by scalar. *)
Variable theta : nat -> A.

Definition dot (x w : list A) : A := sum_list (zip_with mul x w).

Definition weight_row (L : Linear) (o : nat) : list A :=
  map (fun i => theta (offset L + o * in_features L + i)%nat)
      (seq 0 (in_features L)).

Definition bias_at (L : Linear) (o : nat) : A :=
  theta (offset L + out_features L * in_features L + o)%nat.

(** One row through [x W^T + b].  (torch refuses a row whose width is not
    [in_features]; the program never builds one.) *)
Definition Linear_forward (L : Linear) (x : list A) : list A :=
  map (fun o => add (dot x (weight_row L o)) (bias_at L o))
      (seq 0 (out_features L)).

Definition Module_forward (m : Module) (x : list A) : list A :=
  match m with
  | LinearM L => Linear_forward L x
  | TanhM => map tanh_ x
  end.

(** [Sequential.forward]: every module in turn on the whole batch. *)
Definition forward (net : Sequential) (x : tensor A) : tensor A :=
  fold_left (fun t m => map (Module_forward m) t) net x.

(** [DNN.loss_ic] (lines 62-68). *)
Definition loss_ic (net : Sequential) (x_ic : tensor A) (u_ic : list A) : A :=
  let y_ic := forward net x_ic in
  let u_ic_nn := col 0 (cst 0) y_ic in
  let loss_ics := vmean (vpow (vsub u_ic_nn u_ic) 2) in
  loss_ics.
End Forward.

(** ** Derivatives through the graph *)

Definition ones_like {A : Type} (t : tensor A) : tensor node :=
  map (map (fun _ => Const 1)) t.

(** [torch.autograd.grad(outputs, inputs, grad_outputs, create_graph=True)]
    for one tensor of inputs: every entry of [inputs] receives what all the
    entries of [outputs] send back to it. *)
Definition autograd_grad (outputs : tensor node) (inputs : tensor leaf)
  (grad_outputs : tensor node) : tensor node :=
  map (map (fun l =>
         sum_list (map (fun og => backprop l (fst og) (snd og))
                       (combine (concat outputs) (concat grad_outputs)))))
      inputs.

(** [gradients] (lines 72-73); the result is a one-element tuple. *)
Definition gradients (outputs : tensor node) (inputs : tensor leaf)
  : list (tensor node) :=
  [autograd_grad outputs inputs (ones_like outputs)].

(** The parameters as the graph sees them: leaves. *)
Definition theta_leaf (k : nat) : node := Leaf (Theta k).

(** [DNN.loss_pde] (lines 48-59), on a batch that is a differentiation
    root. *)
Definition loss_pde (net : Sequential) (x : tensor leaf) : node :=
  let u := forward theta_leaf net (map (map Leaf) x) in
  let du_g := nth 0 (gradients u x) [] in
  let u_t := cols_to 1 du_g in
  let u_x := cols_from 1 du_g in
  let F := tdiv (tpow u 2)
                (tadd (smul (cst 4) (tpow u 2)) (tpow (ssub (cst 1) u) 2)) in
  let DF := nth 0 (gradients F x) [] in
  let F_x := cols_from 1 DF in
  let f := mean (tpow (tadd u_t F_x) 2) in
  f.

(** [torch.tensor(a, requires_grad=True)]: a leaf tensor of the shape of
    [a]; its content is kept in the environment. *)
Definition requires_grad (a : tensor R) : tensor leaf :=
  map (fun i => map (fun c => XEntry i c) (seq 0 (length (nth i a []))))
      (seq 0 (length a)).

(** [torch.tensor(a)]: no history, the entries are constants. *)
Definition constant (a : tensor R) : tensor node := map (map Const) a.

Definition env_of (params : list R) (x : tensor R) : env :=
  fun l =>
    match l with
    | XEntry i c => nth c (nth i x []) 0
    | Theta k => nth k params 0
    end.

(** The flux of the conservation law, [F(u) = u^2 / (4 u^2 + (1 - u)^2)]. *)
Definition flux {A : Type} `{Arith A} (u : A) : A :=
  div (pw u 2) (add (mul (cst 4) (pw u 2)) (pw (sub (cst 1) u) 2)).

Definition flux_denominator (u : R) : R := 4 * u ^ 2 + (1 - u) ^ 2.

(** The network as a real function of a point [(t, x)]. *)
Definition u_net (params : list R) (t x : R) : R :=
  nth 0 (nth 0 (forward (fun k => nth k params 0) DNN_init [[t; x]]) []) 0.

(** ** Lists indexed by [seq] *)

Lemma zip_with_map {I A B C : Type} (f : A -> B -> C)
  (g : I -> A) (h : I -> B) (s : list I) :
  zip_with f (map g s) (map h s) = map (fun i => f (g i) (h i)) s.
Proof.
  unfold zip_with. induction s as [|i s IH]; simpl; [reflexivity|].
  now rewrite IH.
Qed.

Lemma concat_singletons {I A : Type} (g : I -> A) (s : list I) :
  concat (map (fun i => [g i]) s) = map g s.
Proof.
  induction s as [|i s IH]; simpl; [reflexivity|]. now rewrite IH.
Qed.

Lemma combine_map {I A B : Type} (g : I -> A) (h : I -> B) (s : list I) :
  combine (map g s) (map h s) = map (fun i => (g i, h i)) s.
Proof.
  induction s as [|i s IH]; simpl; [reflexivity|]. now rewrite IH.
Qed.

Lemma map_seq_nth {A : Type} (d : A) (v : list A) :
  map (fun i => nth i v d) (seq 0 (length v)) = v.
Proof.
  induction v as [|a v IH]; simpl; [reflexivity|].
  f_equal. rewrite <- seq_shift, map_map. exact IH.
Qed.

Lemma sum_list_R (v : list R) : sum_list v = fold_right Rplus 0 v.
Proof. reflexivity. Qed.

Lemma sum_list_R_cons (a : R) (v : list R) :
  sum_list (a :: v) = a + sum_list v.
Proof. reflexivity. Qed.

Lemma sum_list_R_app (a b : list R) :
  sum_list (a ++ b) = sum_list a + sum_list b.
Proof.
  induction a as [|x a IH]; simpl; [lra|]. rewrite IH. lra.
Qed.

Lemma sum_list_zero {I : Type} (f : I -> R) (s : list I) :
  (forall i, List.In i s -> f i = 0) -> sum_list (map f s) = 0.
Proof.
  induction s as [|i s IH]; simpl; intro Z; [reflexivity|].
  rewrite Z by now left. rewrite IH; [lra|]. intros k K. apply Z. now right.
Qed.

(** A sum over [0 .. n-1] with a single term that may differ from zero. *)
Lemma sum_list_single (f : nat -> R) (n j : nat) :
  (j < n)%nat -> (forall i, i <> j -> f i = 0) ->
  sum_list (map f (seq 0 n)) = f j.
Proof.
  intros J Z.
  replace n with (j + (1 + (n - j - 1)))%nat by lia.
  rewrite !seq_app, !map_app, !sum_list_R_app. simpl.
  rewrite !sum_list_zero.
  - lra.
  - intros i K. apply in_seq in K. apply Z. lia.
  - intros i K. apply in_seq in K. apply Z. lia.
Qed.

(** ** The graph of the network *)

Section GraphOfNet.
Variable e : env.

(** The same network on numbers: the parameters read in the environment. *)
Definition theta_val (k : nat) : R := e (Theta k).

Lemma value_sum_list (v : list node) :
  value e (sum_list v) = sum_list (map (value e) v).
Proof.
  induction v as [|a v IH]; simpl; [reflexivity|]. now rewrite IH.
Qed.

Lemma value_dot (x w : list node) :
  value e (dot x w) = dot (map (value e) x) (map (value e) w).
Proof.
  unfold dot. rewrite value_sum_list. f_equal.
  unfold zip_with. revert w.
  induction x as [|a x IH]; intros [|b w]; simpl; try reflexivity.
  now rewrite IH.
Qed.

Lemma value_Module_forward (m : Module) (x : list node) :
  map (value e) (Module_forward theta_leaf m x) =
  Module_forward theta_val m (map (value e) x).
Proof.
  destruct m as [L|]; simpl.
  - unfold Linear_forward. rewrite map_map. apply map_ext. intro o.
    simpl. rewrite value_dot. unfold bias_at, weight_row. simpl.
    now rewrite map_map.
  - now rewrite !map_map.
Qed.

Lemma value_forward (net : Sequential) (x : tensor node) :
  map (map (value e)) (forward theta_leaf net x) =
  forward theta_val net (map (map (value e)) x).
Proof.
  unfold forward. revert x.
  induction net as [|m net IH]; intro x; simpl; [reflexivity|].
  rewrite IH. f_equal. rewrite !map_map. apply map_ext.
  intro row. apply value_Module_forward.
Qed.

(** Forward passes contain no division. *)
Lemma wf_sum_list (v : list node) : Forall (wf e) v -> wf e (sum_list v).
Proof.
  induction 1; simpl; auto.
Qed.

Lemma wf_products (x w : list node) :
  Forall (wf e) x -> Forall (wf e) w -> Forall (wf e) (zip_with mul x w).
Proof.
  unfold zip_with. intro W. revert w.
  induction W as [|a x Wa W IH]; intros w Ww; simpl; [constructor|].
  destruct Ww as [|b w Wb Ww]; simpl; constructor.
  - simpl. now split.
  - now apply IH.
Qed.

Lemma wf_Module_forward (m : Module) (x : list node) :
  Forall (wf e) x -> Forall (wf e) (Module_forward theta_leaf m x).
Proof.
  intro W. destruct m as [L|]; simpl.
  - unfold Linear_forward. apply Forall_forall. intros n K.
    apply in_map_iff in K as (o & <- & _). simpl. split; [|exact I].
    apply wf_sum_list, wf_products; [exact W|].
    apply Forall_forall. intros n K.
    apply in_map_iff in K as (i & <- & _). exact I.
  - apply Forall_forall. intros n K.
    apply in_map_iff in K as (a & <- & Ka). simpl.
    rewrite Forall_forall in W. now apply W.
Qed.
End GraphOfNet.

(** ** One row at a time *)

Definition row_forward {A : Type} `{Arith A} (theta : nat -> A)
  (net : Sequential) (row : list A) : list A :=
  fold_left (fun r m => Module_forward theta m r) net row.

Lemma forward_rows {A : Type} `{Arith A} (theta : nat -> A)
  (net : Sequential) (x : tensor A) :
  forward theta net x = map (row_forward theta net) x.
Proof.
  unfold forward, row_forward. revert x.
  induction net as [|m net IH]; intro x; simpl.
  - now rewrite map_id.
  - rewrite IH. now rewrite map_map.
Qed.

Lemma value_row_forward (e : env) (net : Sequential) (row : list node) :
  map (value e) (row_forward theta_leaf net row) =
  row_forward (theta_val e) net (map (value e) row).
Proof.
  unfold row_forward. revert row.
  induction net as [|m net IH]; intro row; simpl; [reflexivity|].
  now rewrite IH, value_Module_forward.
Qed.

Lemma wf_row_forward (e : env) (net : Sequential) (row : list node) :
  Forall (wf e) row -> Forall (wf e) (row_forward theta_leaf net row).
Proof.
  unfold row_forward. revert row.
  induction net as [|m net IH]; intros row W; simpl; [exact W|].
  now apply IH, wf_Module_forward.
Qed.

(** Which batch entries a node depends on. *)
Definition avoids (l : leaf) (row : list node) : Prop :=
  Forall (fun n => mentions l n = false) row.

Lemma mentions_sum_list (l : leaf) (v : list node) :
  avoids l v -> mentions l (sum_list v) = false.
Proof.
  induction 1 as [|a v Ha _ IH]; simpl; [reflexivity|].
  now rewrite Ha, IH.
Qed.

Lemma avoids_Module_forward (i c : nat) (m : Module) (row : list node) :
  avoids (XEntry i c) row ->
  avoids (XEntry i c) (Module_forward theta_leaf m row).
Proof.
  intro W. destruct m as [L|]; simpl.
  - unfold Linear_forward. apply Forall_forall. intros n K.
    apply in_map_iff in K as (o & <- & _). simpl.
    rewrite orb_false_r. apply mentions_sum_list.
    unfold weight_row, zip_with.
    generalize (seq 0 (in_features L)) as s.
    induction W as [|a x Wa W IH]; intros [|k s]; simpl; constructor.
    + simpl. now rewrite Wa.
    + apply IH.
  - apply Forall_forall. intros n K.
    apply in_map_iff in K as (a & <- & Ka). simpl.
    unfold avoids in W. rewrite Forall_forall in W. now apply W.
Qed.

Lemma avoids_row_forward (i c : nat) (net : Sequential) (row : list node) :
  avoids (XEntry i c) row ->
  avoids (XEntry i c) (row_forward theta_leaf net row).
Proof.
  unfold row_forward. revert row.
  induction net as [|m net IH]; intros row W; simpl; [exact W|].
  now apply IH, avoids_Module_forward.
Qed.

(** The last module of the network is a linear layer with one output, so a
    row leaves the network with exactly one entry. *)
Lemma DNN_init_last :
  exists (hidden : Sequential) (L : Linear),
    DNN_init = hidden ++ [LinearM L] /\ out_features L = 1%nat.
Proof.
  unfold DNN_init. cbv zeta. unfold add_Linear at 1.
  eexists _, _. split; reflexivity.
Qed.

Lemma row_forward_width {A : Type} `{Arith A} (theta : nat -> A)
  (row : list A) :
  length (row_forward theta DNN_init row) = 1%nat.
Proof.
  destruct DNN_init_last as (hidden & L & -> & W).
  unfold row_forward. rewrite fold_left_app. simpl.
  unfold Linear_forward. now rewrite length_map, length_seq.
Qed.

Lemma width_one {A : Type} (d : A) (v : list A) :
  length v = 1%nat -> v = [nth 0 v d].
Proof.
  destruct v as [|a [|b v]]; simpl; intro E; try discriminate. reflexivity.
Qed.

(** The output node of the network for row [j] of the root batch. *)
Definition u_node (j : nat) : node :=
  nth 0 (row_forward theta_leaf DNN_init
           [Leaf (XEntry j 0); Leaf (XEntry j 1)]) (Const 0).

Lemma row_forward_u_node (j : nat) :
  row_forward theta_leaf DNN_init [Leaf (XEntry j 0); Leaf (XEntry j 1)] =
  [u_node j].
Proof.
  apply width_one, row_forward_width.
Qed.

(** The network has 13 modules and 4771 scalar parameters. *)
Example DNN_init_shape :
  length DNN_init = 13%nat /\ numel_seq DNN_init = 4771%nat.
Proof. split; vm_compute; reflexivity. Qed.

(** The last linear layer: 30 inputs, 1 output, after the 4740 parameters of
    the layers before it. *)
Definition final_layer : Linear :=
  {| in_features := 30; out_features := 1; offset := 4740 |}.

Lemma DNN_init_final :
  DNN_init = removelast (removelast DNN_init) ++ [TanhM; LinearM final_layer].
Proof. vm_compute. reflexivity. Qed.

#[global] Opaque DNN_init u_node.

(** The network as a real function of [(t, x)], for given parameters. *)
Definition u_fun (theta : nat -> R) (t x : R) : R :=
  nth 0 (row_forward theta DNN_init [t; x]) 0.

Lemma u_net_fun (params : list R) (t x : R) :
  u_net params t x = u_fun (fun k => nth k params 0) t x.
Proof.
  unfold u_net, u_fun. now rewrite forward_rows.
Qed.

Lemma value_u_node (e : env) (j : nat) :
  value e (u_node j) = u_fun (theta_val e) (e (XEntry j 0)) (e (XEntry j 1)).
Proof.
  pose proof (value_row_forward e DNN_init
                [Leaf (XEntry j 0); Leaf (XEntry j 1)]) as V.
  rewrite row_forward_u_node in V. cbn [map value] in V.
  unfold u_fun. now rewrite <- V.
Qed.

Lemma wf_u_node (e : env) (j : nat) : wf e (u_node j).
Proof.
  assert (W : Forall (wf e) [u_node j]).
  { rewrite <- row_forward_u_node. apply wf_row_forward.
    repeat constructor. }
  now inversion W.
Qed.

Lemma u_node_avoids (i j c : nat) :
  i <> j -> mentions (XEntry j c) (u_node i) = false.
Proof.
  intro N.
  assert (W : avoids (XEntry j c) [u_node i]).
  { rewrite <- row_forward_u_node. apply avoids_row_forward.
    assert (E : Nat.eqb j i = false) by (apply Nat.eqb_neq; congruence).
    repeat constructor; simpl; now rewrite E. }
  now inversion W.
Qed.

(** *** The flux node *)

Lemma flux_denominator_gt_0 (u : R) : 0 < flux_denominator u.
Proof.
  unfold flux_denominator.
  pose proof (pow2_ge_0 u). pose proof (pow2_ge_0 (1 - u)).
  destruct (Req_dec u 0) as [->|N]; [lra|].
  assert (0 < u ^ 2) by nra.
  lra.
Qed.

Lemma value_flux (e : env) (n : node) :
  value e (flux n) = flux (value e n).
Proof. reflexivity. Qed.

Lemma flux_R (u : R) : flux u = u ^ 2 / flux_denominator u.
Proof. reflexivity. Qed.

Lemma wf_flux (e : env) (n : node) : wf e n -> wf e (flux n).
Proof.
  intro W. unfold flux. simpl. repeat split; try assumption.
  pose proof (flux_denominator_gt_0 (value e n)) as P.
  unfold flux_denominator in P. simpl in P. lra.
Qed.

Lemma flux_avoids (l : leaf) (n : node) :
  mentions l n = false -> mentions l (flux n) = false.
Proof.
  intro M. unfold flux. simpl. now rewrite M.
Qed.

(** *** What [gradients] returns on a row-wise computation *)

(** With [grad_outputs] all ones, entry [(j, c)] of the result collects the
    contributions of every row of the outputs; only row [j] contributes. *)
Lemma gradients_entry (e : env) (f : node -> node) (n j c : nat) :
  (forall l a, mentions l a = false -> mentions l (f a) = false) ->
  (j < n)%nat ->
  value e (sum_list (map (fun i => backprop (XEntry j c) (f (u_node i))
                                            (Const 1)) (seq 0 n))) =
  value e (backprop (XEntry j c) (f (u_node j)) (Const 1)).
Proof.
  intros F J. rewrite value_sum_list, map_map.
  apply (sum_list_single
           (fun i => value e (backprop (XEntry j c) (f (u_node i)) (Const 1)))
           n j J).
  intros i N. apply backprop_absent, F, u_node_avoids. exact N.
Qed.

Lemma requires_grad_rows (x : tensor R) :
  Forall (fun row => length row = 2%nat) x ->
  requires_grad x =
  map (fun i => [XEntry i 0; XEntry i 1]) (seq 0 (length x)).
Proof.
  intro S. unfold requires_grad. apply map_ext_in. intros i K.
  apply in_seq in K. rewrite Forall_forall in S.
  rewrite (S (nth i x [])); [reflexivity|]. apply nth_In. lia.
Qed.

Lemma forward_root (x : tensor R) :
  Forall (fun row => length row = 2%nat) x ->
  forward theta_leaf DNN_init (map (map Leaf) (requires_grad x)) =
  map (fun j => [u_node j]) (seq 0 (length x)).
Proof.
  intro S. rewrite (requires_grad_rows x S), forward_rows, !map_map.
  apply map_ext. intro j. apply row_forward_u_node.
Qed.

Lemma flux_rows (g : nat -> node) (s : list nat) :
  let u := map (fun j => [g j]) s in
  tdiv (tpow u 2) (tadd (smul (cst 4) (tpow u 2)) (tpow (ssub (cst 1) u) 2)) =
  map (fun j => [flux (g j)]) s.
Proof.
  cbv zeta. unfold tdiv, tadd, tpow, smul, ssub, vpow.
  rewrite !map_map. cbn [map].
  rewrite zip_with_map. cbn [zip_with combine map fst snd].
  rewrite zip_with_map. reflexivity.
Qed.

Lemma gradients_rows (g : nat -> node) (s : list nat) :
  nth 0 (gradients (map (fun j => [g j]) s)
                   (map (fun j => [XEntry j 0; XEntry j 1]) s)) [] =
  map (fun j =>
         [sum_list (map (fun i => backprop (XEntry j 0) (g i) (Const 1)) s);
          sum_list (map (fun i => backprop (XEntry j 1) (g i) (Const 1)) s)])
      s.
Proof.
  unfold gradients, autograd_grad, ones_like. cbn [nth].
  rewrite !map_map. cbn [map].
  rewrite !concat_singletons, combine_map.
  apply map_ext. intro j. now rewrite !map_map.
Qed.

(** The graph that [loss_pde] builds on a root batch of shape (N, 2). *)
Lemma loss_pde_graph (x : tensor R) :
  Forall (fun row => length row = 2%nat) x ->
  loss_pde DNN_init (requires_grad x) =
  vmean (map (fun j =>
    Pow (Add
      (sum_list (map (fun i => backprop (XEntry j 0) (u_node i) (Const 1))
                     (seq 0 (length x))))
      (sum_list (map (fun i => backprop (XEntry j 1) (flux (u_node i))
                                        (Const 1))
                     (seq 0 (length x))))) 2)
    (seq 0 (length x))).
Proof.
  intro S. unfold loss_pde. cbv zeta.
  rewrite (forward_root x S), flux_rows.
  rewrite (requires_grad_rows x S).
  rewrite (gradients_rows u_node), (gradients_rows (fun j => flux (u_node j))).
  unfold mean, cols_to, cols_from, tadd, tpow, vpow.
  rewrite !map_map. cbn [firstn skipn].
  rewrite zip_with_map. cbn [zip_with combine map fst snd].
  rewrite map_map. cbn [map].
  now rewrite concat_singletons.
Qed.

(** *** The entries of the two gradients are exact partial derivatives *)

Lemma upd_XEntry_same (e : env) (j c : nat) (h : R) :
  upd e (XEntry j c) h (XEntry j c) = h.
Proof. unfold upd. now rewrite leaf_eqb_refl. Qed.

Lemma upd_XEntry_other (e : env) (j c c' : nat) (h : R) :
  c <> c' -> upd e (XEntry j c) h (XEntry j c') = e (XEntry j c').
Proof.
  intro N. unfold upd. simpl.
  replace (Nat.eqb c c') with false by (symmetry; now apply Nat.eqb_neq).
  now rewrite andb_false_r.
Qed.

Lemma du_dt (e : env) (j : nat) :
  derivable_pt_lim (fun h => u_fun (theta_val e) h (e (XEntry j 1)))
    (e (XEntry j 0))
    (value e (backprop (XEntry j 0) (u_node j) (Const 1))).
Proof.
  destruct (backprop_sound e (XEntry j 0) (u_node j) (wf_u_node e j))
    as (d & D & G).
  rewrite G. simpl. rewrite Rmult_1_l.
  apply derivable_pt_lim_ext
    with (f := fun h => value (upd e (XEntry j 0) h) (u_node j));
    [|exact D].
  intro h. rewrite value_u_node, upd_XEntry_same.
  now rewrite upd_XEntry_other by discriminate.
Qed.

Lemma dF_dx (e : env) (j : nat) :
  derivable_pt_lim (fun h => flux (u_fun (theta_val e) (e (XEntry j 0)) h))
    (e (XEntry j 1))
    (value e (backprop (XEntry j 1) (flux (u_node j)) (Const 1))).
Proof.
  destruct (backprop_sound e (XEntry j 1) (flux (u_node j))
              (wf_flux e _ (wf_u_node e j))) as (d & D & G).
  rewrite G. simpl. rewrite Rmult_1_l.
  apply derivable_pt_lim_ext
    with (f := fun h => value (upd e (XEntry j 1) h) (flux (u_node j)));
    [|exact D].
  intro h. rewrite value_flux, value_u_node, upd_XEntry_same.
  now rewrite upd_XEntry_other by discriminate.
Qed.

Lemma Forall2_map_seq {A B : Type} (P : A -> B -> Prop) (d : A)
  (f : nat -> B) (v : list A) :
  (forall j, (j < length v)%nat -> P (nth j v d) (f j)) ->
  Forall2 P v (map f (seq 0 (length v))).
Proof.
  revert f. induction v as [|a v IH]; intros f F; simpl; constructor.
  - apply (F 0%nat). simpl. lia.
  - rewrite <- seq_shift, map_map. apply IH.
    intros j J. apply (F (S j)). simpl. lia.
Qed.

(** ** Overflow, infinities and nan *)

(** [value] computes in the real numbers.  The tensors of the program hold
    float32 numbers, whose arithmetic also produces [inf], [-inf] and [nan]:
    a result beyond the largest float32 number overflows to an infinity, and
    the operations on infinities and nan are those of IEEE 754.  [xvalue]
    evaluates a graph with these special values.  Results in range are kept
    exact (no rounding, no underflow), and zero carries no sign: dividing by
    it gives the infinity of the sign of the numerator, as for [+0]; every
    denominator of the program is a count, a square or a sum of squares. *)
Inductive xreal : Type :=
| Fin (r : R)
| PInf
| NInf
| NaN.

(** The largest float32 number, [(2 - 2^-23) * 2^127]. *)
Definition max32 : R := 340282346638528859811704183484516925440.

(** The float a real result becomes. *)
Definition fin (r : R) : xreal :=
  if Rlt_dec max32 r then PInf
  else if Rlt_dec r (- max32) then NInf
  else Fin r.

Definition xneg (a : xreal) : xreal :=
  match a with
  | Fin r => Fin (- r)
  | PInf => NInf
  | NInf => PInf
  | NaN => NaN
  end.

(** The infinity [i] times the number [r]; [inf * 0] is nan. *)
Definition scale (r : R) (i : xreal) : xreal :=
  if Rlt_dec 0 r then i else if Rlt_dec r 0 then xneg i else NaN.

Definition xadd (a b : xreal) : xreal :=
  match a, b with
  | NaN, _ => NaN
  | _, NaN => NaN
  | Fin x, Fin y => fin (x + y)
  | Fin _, PInf => PInf
  | Fin _, NInf => NInf
  | PInf, Fin _ => PInf
  | NInf, Fin _ => NInf
  | PInf, PInf => PInf
  | NInf, NInf => NInf
  | PInf, NInf => NaN
  | NInf, PInf => NaN
  end.

Definition xsub (a b : xreal) : xreal := xadd a (xneg b).

Definition xmul (a b : xreal) : xreal :=
  match a, b with
  | NaN, _ => NaN
  | _, NaN => NaN
  | Fin x, Fin y => fin (x * y)
  | Fin x, PInf => scale x PInf
  | Fin x, NInf => scale x NInf
  | PInf, Fin y => scale y PInf
  | NInf, Fin y => scale y NInf
  | PInf, PInf => PInf
  | NInf, NInf => PInf
  | PInf, NInf => NInf
  | NInf, PInf => NInf
  end.

Definition xdiv (a b : xreal) : xreal :=
  match a, b with
  | NaN, _ => NaN
  | _, NaN => NaN
  | Fin x, Fin y => if Req_dec_T y 0 then scale x PInf else fin (x / y)
  | Fin _, PInf => Fin 0
  | Fin _, NInf => Fin 0
  | PInf, Fin y => if Rlt_dec y 0 then NInf else PInf
  | NInf, Fin y => if Rlt_dec y 0 then PInf else NInf
  | PInf, PInf => NaN
  | NInf, NInf => NaN
  | PInf, NInf => NaN
  | NInf, PInf => NaN
  end.

(** [a ** k] for a constant exponent; [a ** 0] is 1 whatever [a]. *)
Definition xpow (a : xreal) (k : nat) : xreal :=
  match k with
  | O => Fin 1
  | S _ =>
      match a with
      | Fin r => fin (r ^ k)
      | PInf => PInf
      | NInf => if Nat.even k then PInf else NInf
      | NaN => NaN
      end
  end.

Definition xtanh (a : xreal) : xreal :=
  match a with
  | Fin r => Fin (tanh r)
  | PInf => Fin 1
  | NInf => Fin (- 1)
  | NaN => NaN
  end.

#[export] Instance Arith_xreal : Arith xreal := {
  cst := fin;
  add := xadd;
  sub := xsub;
  mul := xmul;
  div := xdiv;
  pw := xpow;
  tanh_ := xtanh
}.

Fixpoint xvalue (e : env) (n : node) : xreal :=
  match n with
  | Leaf l => fin (e l)
  | Const r => fin r
  | Add a b => xadd (xvalue e a) (xvalue e b)
  | Sub a b => xsub (xvalue e a) (xvalue e b)
  | Mul a b => xmul (xvalue e a) (xvalue e b)
  | Div a b => xdiv (xvalue e a) (xvalue e b)
  | Neg a => xneg (xvalue e a)
  | Pow a k => xpow (xvalue e a) k
  | Tanh a => xtanh (xvalue e a)
  end.

(** The comparison [v >= 0] of floats: false on nan. *)
Definition nonnegative (v : xreal) : Prop :=
  match v with
  | Fin r => 0 <= r
  | PInf => True
  | NInf => False
  | NaN => False
  end.

(** The network on floats, at a point [(t, x)]. *)
Definition x_net (params : list R) (t x : R) : xreal :=
  nth 0 (nth 0 (forward (fun k => fin (nth k params 0)) DNN_init
                        [[fin t; fin x]]) []) NaN.

(** *** Numbers in range *)

Lemma max32_pos : 0 < max32.
Proof. unfold max32. lra. Qed.

Lemma fin_in_range (r : R) : - max32 <= r <= max32 -> fin r = Fin r.
Proof.
  intros [Lo Hi]. unfold fin.
  destruct (Rlt_dec max32 r); [lra|].
  destruct (Rlt_dec r (- max32)); [lra|]. reflexivity.
Qed.

Lemma fin_0 : fin 0 = Fin 0.
Proof. apply fin_in_range. pose proof max32_pos. lra. Qed.

Lemma fin_1 : fin 1 = Fin 1.
Proof. apply fin_in_range. unfold max32. lra. Qed.


Lemma fin_nonneg (r : R) : 0 <= r -> fin r = PInf \/ fin r = Fin r.
Proof.
  intro P. unfold fin. pose proof max32_pos.
  destruct (Rlt_dec max32 r); [now left|].
  destruct (Rlt_dec r (- max32)); [lra|]. now right.
Qed.




(** *** nan is absorbing *)

Lemma xadd_NaN_r (a : xreal) : xadd a NaN = NaN.
Proof. now destruct a. Qed.

Lemma xmul_NaN_r (a : xreal) : xmul a NaN = NaN.
Proof. now destruct a. Qed.

Lemma xdiv_NaN_r (a : xreal) : xdiv a NaN = NaN.
Proof. now destruct a. Qed.

(** The mean of no entry: [0 / 0]. *)
Lemma xdiv_0_0 : xdiv (fin 0) (fin 0) = NaN.
Proof.
  rewrite fin_0. simpl.
  destruct (Req_dec_T 0 0) as [_|N]; [|contradiction].
  unfold scale.
  destruct (Rlt_dec 0 0); [lra|]. reflexivity.
Qed.

(** *** The graph of the network, on floats *)

Section FloatsOfNet.
Variable e : env.

Definition theta_float (k : nat) : xreal := fin (e (Theta k)).

Lemma xvalue_sum_list (v : list node) :
  xvalue e (sum_list v) = sum_list (map (xvalue e) v).
Proof.
  induction v as [|a v IH]; simpl; [reflexivity|]. now rewrite IH.
Qed.

Lemma xvalue_dot (x w : list node) :
  xvalue e (dot x w) = dot (map (xvalue e) x) (map (xvalue e) w).
Proof.
  unfold dot. rewrite xvalue_sum_list. f_equal.
  unfold zip_with. revert w.
  induction x as [|a x IH]; intros [|b w]; simpl; try reflexivity.
  now rewrite IH.
Qed.

Lemma xvalue_Module_forward (m : Module) (x : list node) :
  map (xvalue e) (Module_forward theta_leaf m x) =
  Module_forward theta_float m (map (xvalue e) x).
Proof.
  destruct m as [L|]; simpl.
  - unfold Linear_forward. rewrite map_map. apply map_ext. intro o.
    simpl. rewrite xvalue_dot. unfold bias_at, weight_row. simpl.
    now rewrite map_map.
  - now rewrite !map_map.
Qed.

Lemma xvalue_row_forward (net : Sequential) (row : list node) :
  map (xvalue e) (row_forward theta_leaf net row) =
  row_forward theta_float net (map (xvalue e) row).
Proof.
  unfold row_forward. revert row.
  induction net as [|m net IH]; intro row; simpl; [reflexivity|].
  now rewrite IH, xvalue_Module_forward.
Qed.

Lemma xvalue_vmean (v : list node) :
  xvalue e (vmean v) = vmean (map (xvalue e) v).
Proof.
  unfold vmean. cbn [xvalue div cst Arith_node Arith_xreal].
  now rewrite xvalue_sum_list, length_map.
Qed.

Lemma xvalue_u_node (j : nat) :
  xvalue e (u_node j) =
  nth 0 (row_forward theta_float DNN_init
           [fin (e (XEntry j 0)); fin (e (XEntry j 1))]) NaN.
Proof.
  pose proof (xvalue_row_forward DNN_init
                [Leaf (XEntry j 0); Leaf (XEntry j 1)]) as V.
  rewrite row_forward_u_node in V. cbn [map xvalue] in V.
  now rewrite <- V.
Qed.
End FloatsOfNet.

(** *** Where the two readings agree *)

(** Every intermediate result of the graph is in the range of floats, and no
    division is by zero. *)
Fixpoint in_range (e : env) (n : node) : Prop :=
  - max32 <= value e n <= max32 /\
  match n with
  | Leaf _ | Const _ => True
  | Add a b | Sub a b | Mul a b => in_range e a /\ in_range e b
  | Div a b => in_range e a /\ in_range e b /\ value e b <> 0
  | Neg a | Pow a _ | Tanh a => in_range e a
  end.

Lemma xvalue_in_range (e : env) (n : node) :
  in_range e n -> xvalue e n = Fin (value e n).
Proof.
  induction n as [l|r|a IHa b IHb|a IHa b IHb|a IHa b IHb|a IHa b IHb
                  |a IHa|a IHa k|a IHa];
    cbn [in_range xvalue value]; intros [B C].
  - now apply fin_in_range.
  - now apply fin_in_range.
  - destruct C as [Ca Cb]. rewrite (IHa Ca), (IHb Cb).
    now apply fin_in_range.
  - destruct C as [Ca Cb]. rewrite (IHa Ca), (IHb Cb).
    unfold xsub. cbn [xneg xadd].
    replace (value e a + - value e b) with (value e a - value e b) by ring.
    now apply fin_in_range.
  - destruct C as [Ca Cb]. rewrite (IHa Ca), (IHb Cb).
    now apply fin_in_range.
  - destruct C as (Ca & Cb & N). rewrite (IHa Ca), (IHb Cb). cbn [xdiv].
    destruct (Req_dec_T (value e b) 0); [contradiction|].
    now apply fin_in_range.
  - now rewrite (IHa C).
  - rewrite (IHa C). destruct k as [|k]; cbn [xpow].
    + now rewrite pow_O.
    + now apply fin_in_range.
  - now rewrite (IHa C).
Qed.

(** The residual loss of an empty batch is the mean of no entry: nan. *)
Lemma loss_pde_empty (e : env) :
  xvalue e (loss_pde DNN_init (requires_grad [])) = NaN.
Proof.
  rewrite (loss_pde_graph [] (Forall_nil _)). exact xdiv_0_0.
Qed.

(** C1.  On every batch of shape (N, 2) that is a differentiation root,
    [loss_pde] returns the mean over the rows of [(u_t + F_x)^2]: the sum of
    these squares over their number.  For the row [(t, x)] the number [u_t] is
    the exact partial derivative in [t] of the network output [u], and [F_x]
    is the exact partial derivative in [x] of the flux
    [u^2 / (4 u^2 + (1 - u)^2)] of that output: the time column of the
    gradient of [u] and the space column of the gradient of [F], both taken
    with respect to the batch.  The mean of an empty batch is nan. *)
Theorem loss_pde_mean_squared_residual (params : list R) (x : tensor R) :
  Forall (fun row => length row = 2%nat) x ->
  let e := env_of params x in
  let loss := loss_pde DNN_init (requires_grad x) in
  (x = [] -> xvalue e loss = NaN) /\
  (x <> [] ->
   exists r : list R,
     value e loss =
       fold_right Rplus 0 (map (fun v => v ^ 2) r) / INR (length r) /\
     Forall2
       (fun row ri =>
          exists u_t F_x : R,
            ri = u_t + F_x /\
            derivable_pt_lim (fun t => u_net params t (nth 1 row 0))
                             (nth 0 row 0) u_t /\
            derivable_pt_lim
              (fun s => u_net params (nth 0 row 0) s ^ 2 /
                        (4 * u_net params (nth 0 row 0) s ^ 2 +
                         (1 - u_net params (nth 0 row 0) s) ^ 2))
              (nth 1 row 0) F_x)
       x r).
Proof.
  intros S e loss. split.
  - intros ->. apply loss_pde_empty.
  - intros _.
    exists (map (fun j =>
              value e (backprop (XEntry j 0) (u_node j) (Const 1)) +
              value e (backprop (XEntry j 1) (flux (u_node j)) (Const 1)))
           (seq 0 (length x))).
    split.
    + unfold loss. rewrite (loss_pde_graph x S). unfold vmean.
      cbn [value div cst Arith_node Arith_R].
      rewrite value_sum_list, !length_map, !map_map.
      f_equal. rewrite sum_list_R. f_equal.
      apply map_ext_in. intros j J. apply in_seq in J.
      cbn [value].
      rewrite (gradients_entry e (fun a => a)) by (auto; lia).
      rewrite (gradients_entry e flux) by (auto using flux_avoids; lia).
      reflexivity.
    + apply Forall2_map_seq with (d := []). intros j J.
      eexists _, _. split; [reflexivity|]. split.
      * apply derivable_pt_lim_ext
          with (f := fun h => u_fun (theta_val e) h (e (XEntry j 1))).
        -- intro h. now rewrite u_net_fun.
        -- apply (du_dt e j).
      * apply derivable_pt_lim_ext
          with (f := fun h => flux (u_fun (theta_val e) (e (XEntry j 0)) h)).
        -- intro h. now rewrite u_net_fun.
        -- apply (dF_dx e j).
Qed.

(** ** The flux denominator *)

(** C5.  For every real [u] the flux denominator [4 u^2 + (1 - u)^2] is
    strictly positive, and so is every entry of the denominator tensor that
    line 53 divides by, whatever the tensor [u] and the content of the
    leaves: the division that defines [F] never divides by zero. *)
Theorem flux_denominator_positive :
  (forall u : R, 0 < 4 * u ^ 2 + (1 - u) ^ 2) /\
  (forall u : R, flux u = u ^ 2 / (4 * u ^ 2 + (1 - u) ^ 2)) /\
  (forall (e : env) (u : tensor node),
      Forall (Forall (fun d => 0 < value e d))
             (tadd (smul (cst 4) (tpow u 2)) (tpow (ssub (cst 1) u) 2))).
Proof.
  split; [exact flux_denominator_gt_0|]. split; [reflexivity|].
  intros e u. unfold tadd, smul, tpow, ssub, vpow.
  rewrite !map_map, zip_with_map.
  apply Forall_forall. intros row K.
  apply in_map_iff in K as (r & <- & _).
  rewrite !map_map, zip_with_map.
  apply Forall_forall. intros d K.
  apply in_map_iff in K as (a & <- & _).
  exact (flux_denominator_gt_0 (value e a)).
Qed.

(** ** The initial-condition loss *)

Lemma value_vmean (e : env) (v : list node) :
  value e (vmean v) = vmean (map (value e) v).
Proof.
  unfold vmean. cbn [value div cst Arith_node Arith_R].
  now rewrite value_sum_list, length_map.
Qed.

Lemma value_vsub (e : env) (a b : list node) :
  map (value e) (vsub a b) = vsub (map (value e) a) (map (value e) b).
Proof.
  unfold vsub, zip_with. revert b.
  induction a as [|x a IH]; intros [|y b]; simpl; try reflexivity.
  now rewrite IH.
Qed.

Lemma value_constant (e : env) (a : tensor R) :
  map (map (value e)) (constant a) = a.
Proof.
  unfold constant. rewrite map_map.
  rewrite (map_ext _ (fun row => row)); [apply map_id|].
  intro row. rewrite map_map. apply map_id.
Qed.

(** The loss node of the initial condition evaluates to the same loss
    computed on numbers. *)
Lemma value_loss_ic (e : env) (net : Sequential)
  (x_ic : tensor R) (u_ic : list R) :
  value e (loss_ic theta_leaf net (constant x_ic) (map Const u_ic)) =
  loss_ic (theta_val e) net x_ic u_ic.
Proof.
  unfold loss_ic. cbv zeta.
  rewrite value_vmean. f_equal. unfold vpow. rewrite map_map.
  rewrite <- (map_map (value e) (fun v => v ^ 2)). f_equal.
  rewrite value_vsub. f_equal.
  - unfold col. rewrite map_map.
    rewrite <- (value_constant e x_ic) at 2.
    rewrite <- value_forward, map_map.
    apply map_ext. intro row. symmetry.
    apply (map_nth (value e) row (Const 0) 0).
  - rewrite map_map. apply map_id.
Qed.

Lemma forward_length {A : Type} `{Arith A} (theta : nat -> A)
  (net : Sequential) (x : tensor A) :
  length (forward theta net x) = length x.
Proof.
  rewrite forward_rows. apply length_map.
Qed.

(** *** The loss row by row *)

Lemma combine_map_l {A A' B : Type} (f : A -> A') (a : list A) (b : list B) :
  combine (map f a) b = map (fun p => (f (fst p), snd p)) (combine a b).
Proof.
  revert b. induction a as [|x a IH]; intros [|y b]; simpl; try reflexivity.
  now rewrite IH.
Qed.


Lemma nth_0_width_one {A : Type} (d d' : A) (v : list A) :
  length v = 1%nat -> nth 0 v d = nth 0 v d'.
Proof.
  destruct v as [|a [|b v]]; simpl; intro E; try discriminate. reflexivity.
Qed.

(** [loss_ic] on the network of the program: one squared difference per
    pair of a point and a target, summed and divided by their number. *)
Lemma loss_ic_rows {A : Type} `{Arith A} (theta : nat -> A) (d : A)
  (x_ic : tensor A) (u_ic : list A) :
  loss_ic theta DNN_init x_ic u_ic =
  div (sum_list
         (map (fun p => pw (sub (nth 0 (row_forward theta DNN_init (fst p)) d)
                                (snd p)) 2)
              (combine x_ic u_ic)))
      (cst (INR (length (combine x_ic u_ic)))).
Proof.
  unfold loss_ic. cbv zeta. unfold vmean, vpow, vsub, zip_with, col.
  rewrite forward_rows, !map_map, combine_map_l, !map_map, !length_map.
  match goal with
  | |- div (sum_list (map ?f ?l)) _ = div (sum_list (map ?g ?l)) _ =>
      rewrite (map_ext f g); [reflexivity|]
  end.
  intros [row u]. cbn [fst snd].
  rewrite (nth_0_width_one (cst 0) d); [reflexivity|].
  apply row_forward_width.
Qed.

Lemma xvalue_vsub (e : env) (a b : list node) :
  map (xvalue e) (vsub a b) = vsub (map (xvalue e) a) (map (xvalue e) b).
Proof.
  unfold vsub, zip_with. revert b.
  induction a as [|x a IH]; intros [|y b]; simpl; try reflexivity.
  now rewrite IH.
Qed.

Lemma xvalue_loss_ic (e : env) (net : Sequential)
  (x_ic : tensor R) (u_ic : list R) :
  xvalue e (loss_ic theta_leaf net (constant x_ic) (map Const u_ic)) =
  loss_ic (theta_float e) net (map (map fin) x_ic) (map fin u_ic).
Proof.
  unfold loss_ic. cbv zeta.
  rewrite xvalue_vmean. f_equal. unfold vpow. rewrite map_map.
  rewrite <- (map_map (xvalue e) (fun v => xpow v 2)). f_equal.
  rewrite xvalue_vsub. f_equal; [|now rewrite map_map].
  unfold col, constant. rewrite !forward_rows, !map_map.
  apply map_ext. intro row.
  rewrite <- (map_nth (xvalue e)). f_equal.
  rewrite xvalue_row_forward. now rewrite map_map.
Qed.




(** The initial-condition loss of an empty batch is the mean of no entry. *)
Lemma loss_ic_empty (e : env) :
  xvalue e (loss_ic theta_leaf DNN_init (constant []) (map Const [])) = NaN.
Proof.
  rewrite xvalue_loss_ic, (loss_ic_rows _ NaN). exact xdiv_0_0.
Qed.

(** *** Sums of squares on floats *)

(** A float that is not below zero: a number that is at least 0, [inf], or
    nan. *)
Definition never_negative (v : xreal) : Prop :=
  match v with
  | Fin r => 0 <= r
  | PInf => True
  | NInf => False
  | NaN => True
  end.

Lemma never_negative_cases (v : xreal) :
  never_negative v -> nonnegative v \/ v = NaN.
Proof.
  destruct v; simpl; auto.
Qed.

Lemma fin_never_negative (r : R) : 0 <= r -> never_negative (fin r).
Proof.
  intro P. destruct (fin_nonneg r P) as [E|E]; rewrite E; simpl; auto.
Qed.

Lemma xpow_2_never_negative (a : xreal) : never_negative (xpow a 2).
Proof.
  destruct a as [r| | |]; cbn [xpow Nat.even]; try exact I.
  apply fin_never_negative, pow2_ge_0.
Qed.

Lemma xadd_never_negative (a b : xreal) :
  never_negative a -> never_negative b -> never_negative (xadd a b).
Proof.
  destruct a, b; simpl; auto. intros. apply fin_never_negative. lra.
Qed.

Lemma sum_never_negative (v : list xreal) :
  Forall never_negative v -> never_negative (sum_list v).
Proof.
  induction 1 as [|a v Na _ IH].
  - apply fin_never_negative. lra.
  - now apply xadd_never_negative.
Qed.

Lemma xdiv_count_never_negative (s : xreal) (n : nat) :
  never_negative s -> never_negative (xdiv s (fin (INR n))).
Proof.
  intro Ns. pose proof (pos_INR n) as P.
  destruct (fin_nonneg (INR n) P) as [E|E]; rewrite E.
  - destruct s; simpl; auto. lra.
  - destruct s as [r| | |]; simpl in *; auto; try contradiction.
    + destruct (Req_dec_T (INR n) 0) as [Z|Z].
      * unfold scale. destruct (Rlt_dec 0 r); [exact I|].
        destruct (Rlt_dec r 0); [lra|exact I].
      * apply fin_never_negative.
        apply Rmult_le_pos; [exact Ns|].
        apply Rlt_le, Rinv_0_lt_compat. lra.
    + destruct (Rlt_dec (INR n) 0); [lra|exact I].
Qed.

Lemma vmean_never_negative (v : list xreal) :
  Forall never_negative v -> never_negative (vmean v).
Proof.
  intro N. apply xdiv_count_never_negative, sum_never_negative, N.
Qed.

Definition is_square (n : node) : Prop := exists a : node, n = Pow a 2.

Lemma vpow_squares (v : list node) : Forall is_square (vpow v 2).
Proof.
  apply Forall_forall. intros n K.
  apply in_map_iff in K as (a & <- & _). now exists a.
Qed.

Lemma tpow_squares (t : tensor node) : Forall is_square (concat (tpow t 2)).
Proof.
  apply Forall_forall. intros n K.
  apply in_concat in K as (row & Kr & K).
  apply in_map_iff in Kr as (r & <- & _).
  revert n K. apply Forall_forall, vpow_squares.
Qed.

Lemma mean_squares_never_negative (e : env) (v : list node) :
  Forall is_square v -> never_negative (xvalue e (vmean v)).
Proof.
  intro Q. rewrite xvalue_vmean. apply vmean_never_negative.
  apply Forall_forall. intros a K.
  apply in_map_iff in K as (n & <- & K).
  rewrite Forall_forall in Q. destruct (Q n K) as (b & ->).
  apply xpow_2_never_negative.
Qed.

(** *** When a mean of squares is zero *)







(** C7.  Whatever the parameters and the batches, neither loss is ever
    negative: the residual loss and the initial-condition loss are each a
    number that is at least 0, [inf], or nan. *)
Theorem losses_nonnegative_or_nan (params : list R) (x x_ic : tensor R)
  (u_ic : list R) :
  let e := env_of params x in
  let f := xvalue e (loss_pde DNN_init (requires_grad x)) in
  let loss_ics :=
    xvalue e (loss_ic theta_leaf DNN_init (constant x_ic) (map Const u_ic)) in
  (nonnegative f \/ f = NaN) /\ (nonnegative loss_ics \/ loss_ics = NaN).
Proof.
  intros e f loss_ics.
  split; apply never_negative_cases, mean_squares_never_negative.
  - apply tpow_squares.
  - apply vpow_squares.
Qed.

(** *** nan through the nested gradient *)

(** A nan that is sent back through a node reaches every leaf the node
    depends on: each backward rule multiplies, divides or negates the
    incoming gradient, and the contributions are added. *)
Lemma backprop_NaN (e : env) (l : leaf) (n : node) :
  mentions l n = true ->
  forall g : node, xvalue e g = NaN -> xvalue e (backprop l n g) = NaN.
Proof.
  induction n as [l'|r|a IHa b IHb|a IHa b IHb|a IHa b IHb|a IHa b IHb
                  |a IHa|a IHa k|a IHa]; cbn [mentions backprop];
    intros M g G.
  - now rewrite M.
  - discriminate.
  - cbn [xvalue]. destruct (mentions l a).
    + now rewrite (IHa eq_refl g G).
    + rewrite (IHb M g G). apply xadd_NaN_r.
  - cbn [xvalue]. destruct (mentions l a).
    + now rewrite (IHa eq_refl g G).
    + rewrite (IHb M (Neg g)); [apply xadd_NaN_r|].
      cbn [xvalue]. now rewrite G.
  - cbn [xvalue]. destruct (mentions l a).
    + rewrite (IHa eq_refl (Mul g b)); [reflexivity|].
      cbn [xvalue]. now rewrite G.
    + rewrite (IHb M (Mul g a)); [apply xadd_NaN_r|].
      cbn [xvalue]. now rewrite G.
  - cbn [xvalue]. destruct (mentions l a).
    + rewrite (IHa eq_refl (Div g b)); [reflexivity|].
      cbn [xvalue]. now rewrite G.
    + rewrite (IHb M (Div (Mul (Neg g) a) (Mul b b))); [apply xadd_NaN_r|].
      cbn [xvalue]. now rewrite G.
  - apply (IHa M). cbn [xvalue]. now rewrite G.
  - apply (IHa M). cbn [xvalue]. now rewrite G.
  - apply (IHa M). cbn [xvalue]. now rewrite G.
Qed.

(** The gradient a division sends back to its denominator. *)
Lemma backprop_Div_NaN (e : env) (l : leaf) (a b g : node) :
  mentions l b = true ->
  xvalue e (Div (Mul (Neg g) a) (Mul b b)) = NaN ->
  xvalue e (backprop l (Div a b) g) = NaN.
Proof.
  intros M G. cbn [backprop]. cbn [xvalue] in *.
  rewrite (backprop_NaN e l b M (Div (Mul (Neg g) a) (Mul b b)) G).
  apply xadd_NaN_r.
Qed.

(** The network output depends on both entries of its row. *)
Definition reaches (l : leaf) (row : list node) : Prop :=
  Exists (fun n => mentions l n = true) row.

(** Every linear layer is at least as wide as the row it receives and has an
    output. *)
Fixpoint widths_chain (w : nat) (net : Sequential) : bool :=
  match net with
  | [] => true
  | LinearM L :: net =>
      (w <=? in_features L)%nat && (1 <=? out_features L)%nat
      && widths_chain (out_features L) net
  | TanhM :: net => widths_chain w net
  end.

Lemma mentions_sum_list_true (l : leaf) (v : list node) :
  reaches l v -> mentions l (sum_list v) = true.
Proof.
  induction 1 as [a v Ha|a v _ IH]; simpl.
  - now rewrite Ha.
  - rewrite IH. apply orb_true_r.
Qed.

Lemma reaches_products (l : leaf) (x w : list node) :
  (length x <= length w)%nat -> reaches l x -> reaches l (zip_with mul x w).
Proof.
  unfold zip_with. intros L E. revert w L.
  induction E as [a x Ha|a x _ IH]; intros [|b w] L; simpl in L;
    try lia; simpl.
  - apply Exists_cons_hd. simpl. now rewrite Ha.
  - apply Exists_cons_tl, IH. lia.
Qed.

Lemma reaches_Module_forward (l : leaf) (m : Module) (row : list node) :
  widths_chain (length row) [m] = true -> reaches l row ->
  reaches l (Module_forward theta_leaf m row) /\
  widths_chain (length (Module_forward theta_leaf m row)) [] = true /\
  length (Module_forward theta_leaf m row) =
    match m with LinearM L => out_features L | TanhM => length row end.
Proof.
  intros C E. destruct m as [L|]; cbn [Module_forward widths_chain] in *.
  - apply andb_true_iff in C as [C _]. apply andb_true_iff in C as [Ci Co].
    apply Nat.leb_le in Ci, Co. unfold Linear_forward.
    rewrite length_map, length_seq. split; [|split; reflexivity].
    destruct (out_features L) as [|o]; [lia|].
    cbn [seq map]. apply Exists_cons_hd. cbn [add Arith_node mentions].
    unfold dot. rewrite mentions_sum_list_true; [reflexivity|].
    apply reaches_products; [|exact E].
    unfold weight_row. now rewrite length_map, length_seq.
  - rewrite length_map. split; [|split; reflexivity].
    unfold reaches in *. apply Exists_exists in E as (n & K & M).
    apply Exists_exists. exists (Tanh n). split; [|exact M].
    apply in_map_iff. now exists n.
Qed.

Lemma reaches_row_forward (l : leaf) (net : Sequential) (row : list node) :
  widths_chain (length row) net = true -> reaches l row ->
  reaches l (row_forward theta_leaf net row).
Proof.
  unfold row_forward. revert row.
  induction net as [|m net IH]; intros row C E; [exact E|].
  cbn [fold_left].
  destruct (reaches_Module_forward l m row) as (E' & _ & W); [|exact E|].
  - destruct m as [L|]; cbn [widths_chain] in *.
    + apply andb_true_iff in C as [C _]. now rewrite C.
    + reflexivity.
  - apply IH; [|exact E'].
    rewrite W. destruct m as [L|]; cbn [widths_chain] in C; [|exact C].
    now apply andb_true_iff in C as [_ C].
Qed.

Lemma DNN_init_widths : widths_chain 2 DNN_init = true.
Proof. vm_compute. reflexivity. Qed.

Lemma u_node_mentions (j c : nat) :
  (c < 2)%nat -> mentions (XEntry j c) (u_node j) = true.
Proof.
  intro C.
  assert (E : reaches (XEntry j c) [u_node j]).
  { rewrite <- row_forward_u_node.
    apply reaches_row_forward; [exact DNN_init_widths|].
    destruct c as [|[|c]]; [| |lia].
    - apply Exists_cons_hd. cbn [mentions leaf_eqb].
      now rewrite !Nat.eqb_refl.
    - apply Exists_cons_tl, Exists_cons_hd. cbn [mentions leaf_eqb].
      now rewrite !Nat.eqb_refl. }
  inversion E as [? ? M|? ? M]; [exact M|inversion M].
Qed.

(** *** A layer whose weights are zero *)

Definition finite (v : xreal) : Prop := exists r : R, v = Fin r.

Section ZeroWeights.
Variable theta : nat -> xreal.
Variable bound : nat.
Hypothesis zero_below : forall k, (k < bound)%nat -> theta k = Fin 0.

Definition parameters_below (net : Sequential) : bool :=
  forallb (fun m => match m with
                    | LinearM L => (offset L + numel m <=? bound)%nat
                    | TanhM => true
                    end) net.

Lemma dot_zero_weights (x w : list xreal) :
  Forall finite x -> Forall (fun a => a = Fin 0) w -> dot x w = Fin 0.
Proof.
  intro Fx. revert w.
  induction Fx as [|a x [r ->] _ IH]; intros w Fw; [apply fin_0|].
  destruct Fw as [|b w -> Fw]; [apply fin_0|].
  change (xadd (xmul (Fin r) (Fin 0)) (dot x w) = Fin 0).
  rewrite (IH w Fw). cbn [xmul]. rewrite Rmult_0_r, fin_0. cbn [xadd].
  rewrite Rplus_0_r. apply fin_0.
Qed.

Lemma weight_row_zero (L : Linear) (o : nat) :
  (offset L + out_features L * in_features L <= bound)%nat ->
  (o < out_features L)%nat ->
  Forall (fun a => a = Fin 0) (weight_row theta L o).
Proof.
  intros B O. unfold weight_row. apply Forall_forall. intros a K.
  apply in_map_iff in K as (i & <- & K). apply in_seq in K.
  apply zero_below. nia.
Qed.

Lemma Linear_forward_zero (L : Linear) (x : list xreal) :
  (offset L + numel (LinearM L) <= bound)%nat -> Forall finite x ->
  Forall (fun a => a = Fin 0) (Linear_forward theta L x).
Proof.
  cbn [numel]. intros B Fx. unfold Linear_forward.
  apply Forall_forall. intros a K.
  apply in_map_iff in K as (o & <- & K). apply in_seq in K.
  rewrite dot_zero_weights;
    [|exact Fx|apply weight_row_zero; lia].
  unfold bias_at. rewrite zero_below by lia.
  cbn [add Arith_xreal xadd]. rewrite Rplus_0_r. apply fin_0.
Qed.

Lemma row_forward_finite (net : Sequential) (row : list xreal) :
  parameters_below net = true -> Forall finite row ->
  Forall finite (row_forward theta net row).
Proof.
  unfold row_forward, parameters_below. revert row.
  induction net as [|m net IH]; intros row B Fr; [exact Fr|].
  cbn [forallb] in B. apply andb_true_iff in B as [Bm B].
  cbn [fold_left]. apply (IH _ B).
  destruct m as [L|]; cbn [Module_forward].
  - apply Nat.leb_le in Bm.
    apply (Forall_impl finite (P := fun a => a = Fin 0)).
    + intros a ->. now exists 0.
    + now apply Linear_forward_zero.
  - apply Forall_forall. intros a K.
    apply in_map_iff in K as (b & <- & K).
    rewrite Forall_forall in Fr. destruct (Fr b K) as (r & ->).
    now exists (tanh r).
Qed.
End ZeroWeights.

(** *** An output that overflows when squared *)

(** All weights and biases 0, except the bias of the last layer. *)
Definition overflowing_parameters : list R := repeat 0 4770 ++ [1e20].

Lemma overflowing_parameters_zero (k : nat) :
  (k < 4770)%nat -> fin (nth k overflowing_parameters 0) = Fin 0.
Proof.
  intro K. unfold overflowing_parameters.
  rewrite app_nth1 by (rewrite repeat_length; exact K).
  rewrite nth_repeat. apply fin_0.
Qed.

Lemma overflowing_parameters_last :
  fin (nth 4770 overflowing_parameters 0) = Fin 1e20.
Proof.
  unfold overflowing_parameters.
  rewrite app_nth2 by (rewrite repeat_length; apply Nat.le_refl).
  rewrite repeat_length, Nat.sub_diag. cbn [nth].
  apply fin_in_range. unfold max32. lra.
Qed.

Lemma hidden_layers_below :
  parameters_below 4740 (removelast (removelast DNN_init)) = true.
Proof. vm_compute. reflexivity. Qed.

(** The network is the constant [1e20] for these parameters. *)
Lemma overflowing_output (t x : R) :
  - max32 <= t <= max32 -> - max32 <= x <= max32 ->
  x_net overflowing_parameters t x = Fin 1e20.
Proof.
  intros T X. unfold x_net. rewrite forward_rows. cbn [map nth].
  unfold row_forward. rewrite DNN_init_final, fold_left_app.
  set (theta := fun k => fin (nth k overflowing_parameters 0)).
  set (h := fold_left (fun r m => Module_forward theta m r)
                      (removelast (removelast DNN_init)) _).
  cbn [fold_left Module_forward]. unfold Linear_forward.
  cbn [out_features final_layer seq map nth].
  assert (Z : forall k, (k < 4770)%nat -> theta k = Fin 0)
    by exact overflowing_parameters_zero.
  assert (Fh : Forall finite h).
  { apply (row_forward_finite theta 4740).
    - intros k K. apply Z. lia.
    - exact hidden_layers_below.
    - rewrite (fin_in_range t T), (fin_in_range x X).
      repeat constructor; eexists; reflexivity. }
  rewrite (dot_zero_weights (map tanh_ h)).
  - unfold bias_at. cbn [offset out_features in_features final_layer].
    replace (4740 + 1 * 30 + 0)%nat with 4770%nat by reflexivity.
    unfold theta. rewrite overflowing_parameters_last.
    cbn [add Arith_xreal xadd]. rewrite Rplus_0_l.
    apply fin_in_range. unfold max32. lra.
  - apply Forall_forall. intros a K.
    apply in_map_iff in K as (b & <- & K).
    rewrite Forall_forall in Fh. destruct (Fh b K) as (r & ->).
    now exists (tanh r).
  - apply (weight_row_zero theta 4770 Z); cbn; lia.
Qed.

Lemma scale_pos (r : R) (i : xreal) : 0 < r -> scale r i = i.
Proof.
  intro P. unfold scale. destruct (Rlt_dec 0 r); [reflexivity|lra].
Qed.

Lemma scale_neg (r : R) (i : xreal) : r < 0 -> scale r i = xneg i.
Proof.
  intro P. unfold scale. destruct (Rlt_dec 0 r); [lra|].
  destruct (Rlt_dec r 0); [reflexivity|lra].
Qed.

Lemma fin_overflow (r : R) : max32 < r -> fin r = PInf.
Proof.
  intro B. unfold fin. destruct (Rlt_dec max32 r); [reflexivity|lra].
Qed.

(** For a network output of [1e20] the flux is [inf / inf]: the gradient the
    division sends to its denominator is nan, and so are [F_x] and the
    residual loss. *)
Lemma loss_pde_overflow :
  xvalue (env_of overflowing_parameters [[0; 0]])
         (loss_pde DNN_init (requires_grad [[0; 0]])) = NaN.
Proof.
  set (e := env_of overflowing_parameters [[0; 0]]).
  assert (U : xvalue e (u_node 0) = Fin 1e20).
  { rewrite xvalue_u_node.
    pose proof (overflowing_output 0 0) as O.
    unfold x_net in O. rewrite forward_rows in O. cbn [map nth] in O.
    apply O; pose proof max32_pos; lra. }
  assert (Q : fin (1e20 ^ 2) = PInf)
    by (apply fin_overflow; unfold max32; lra).
  assert (F_x : xvalue e (backprop (XEntry 0 1) (flux (u_node 0)) (Const 1))
                = NaN).
  { unfold flux. cbn [div pw add mul sub cst Arith_node].
    apply backprop_Div_NaN.
    - cbn [mentions]. rewrite (u_node_mentions 0 1) by lia. reflexivity.
    - cbn [xvalue]. rewrite U.
      assert (P1 : xpow (Fin 1e20) 2 = PInf) by exact Q.
      assert (P2 : xpow (xsub (fin 1) (Fin 1e20)) 2 = PInf).
      { rewrite fin_1. unfold xsub. cbn [xneg xadd].
        rewrite fin_in_range by (unfold max32; lra).
        cbn [xpow]. apply fin_overflow. unfold max32. lra. }
      rewrite P1, P2, fin_1, (fin_in_range 4) by (unfold max32; lra).
      cbn [xneg xmul].
      rewrite (scale_neg (- 1)), (scale_pos 4) by lra.
      reflexivity. }
  rewrite (loss_pde_graph [[0; 0]]) by (repeat constructor).
  cbn [length seq map]. rewrite xvalue_vmean. cbn [map xvalue].
  cbn [sum_list fold_right add cst Arith_node xvalue].
  rewrite F_x. cbn [xadd]. rewrite xadd_NaN_r. reflexivity.
Qed.

(** *** Propagation keeps graphs free of division by zero *)

Lemma wf_backprop (e : env) (l : leaf) (n : node) :
  wf e n -> forall g, wf e g -> wf e (backprop l n g).
Proof.
  induction n as [l'|r|a IHa b IHb|a IHa b IHb|a IHa b IHb|a IHa b IHb
                  |a IHa|a IHa k|a IHa]; simpl; intros W g G.
  - now destruct (leaf_eqb l l').
  - exact I.
  - destruct W. split; [apply IHa|apply IHb]; assumption.
  - destruct W. split; [apply IHa|apply IHb]; assumption.
  - destruct W. split; [apply IHa|apply IHb]; simpl; auto.
  - destruct W as (Wa & Wb & Nz). split.
    + apply IHa; simpl; auto.
    + apply IHb; [exact Wb|]. simpl. repeat split; auto.
  - apply IHa; assumption.
  - apply IHa; simpl; auto.
  - apply IHa; simpl; auto.
Qed.

Lemma wf_vmean (e : env) (v : list node) :
  Forall (wf e) v -> v <> [] -> wf e (vmean v).
Proof.
  intros W N. unfold vmean. simpl. repeat split.
  - now apply wf_sum_list.
  - apply not_0_INR. destruct v; [contradiction|discriminate].
Qed.

Lemma wf_loss_pde (e : env) (x : tensor R) :
  Forall (fun row => length row = 2%nat) x -> x <> [] ->
  wf e (loss_pde DNN_init (requires_grad x)).
Proof.
  intros S N. rewrite (loss_pde_graph x S). apply wf_vmean.
  - apply Forall_forall. intros n K.
    apply in_map_iff in K as (j & <- & _). cbn [wf]. split.
    + apply wf_sum_list, Forall_forall. intros n K.
      apply in_map_iff in K as (i & <- & _).
      apply wf_backprop; [apply wf_u_node|exact I].
    + apply wf_sum_list, Forall_forall. intros n K.
      apply in_map_iff in K as (i & <- & _).
      apply wf_backprop; [apply wf_flux, wf_u_node|exact I].
  - destruct x; [contradiction|discriminate].
Qed.

Lemma wf_loss_ic (e : env) (x_ic : tensor R) (u_ic : list R) :
  x_ic <> [] -> length u_ic = length x_ic ->
  wf e (loss_ic theta_leaf DNN_init (constant x_ic) (map Const u_ic)).
Proof.
  intros N L. unfold loss_ic. cbv zeta. apply wf_vmean.
  - unfold vpow, vsub, zip_with, col. rewrite map_map.
    apply Forall_forall. intros n K.
    apply in_map_iff in K as ([a b] & <- & K). simpl.
    pose proof (in_combine_l _ _ _ _ K) as Ka.
    pose proof (in_combine_r _ _ _ _ K) as Kb.
    apply in_map_iff in Ka as (row & <- & Kr).
    apply in_map_iff in Kb as (r & <- & _). split; [|exact I].
    rewrite forward_rows in Kr.
    apply in_map_iff in Kr as (row0 & <- & K0).
    unfold constant in K0. apply in_map_iff in K0 as (r0 & <- & _).
    assert (W : Forall (wf e) (row_forward theta_leaf DNN_init (map Const r0))).
    { apply wf_row_forward, Forall_forall. intros c Kc.
      apply in_map_iff in Kc as (v & <- & _). exact I. }
    destruct (row_forward theta_leaf DNN_init (map Const r0)) as [|o os];
      simpl; [exact I|now inversion W].
  - assert (E : length (vpow (vsub (col 0 (cst 0)
                  (forward theta_leaf DNN_init (constant x_ic)))
                  (map Const u_ic)) 2) = length x_ic).
    { unfold vpow, vsub, zip_with, col, constant.
      rewrite !length_map, length_combine, !length_map, forward_length,
        length_map. lia. }
    intro Z. rewrite Z in E. destruct x_ic; [contradiction|discriminate].
Qed.

(** ** Exceptions *)

Inductive exn : Type :=
| IndexError
| ValueError
| RuntimeError
| TypeError (msg : string).

Inductive result (A : Type) : Type :=
| Ok (a : A)
| Raise (err : exn).

Arguments Ok {A} a.
Arguments Raise {A} err.

Definition bind {A B : Type} (r : result A) (k : A -> result B) : result B :=
  match r with
  | Ok a => k a
  | Raise err => Raise err
  end.

Notation "x <- r ;; k" := (bind r (fun x => k))
  (at level 61, r at next level, right associativity).

Fixpoint traverse {A B : Type} (f : A -> result B) (v : list A)
  : result (list B) :=
  match v with
  | [] => Ok []
  | a :: v' => b <- f a ;; bs <- traverse f v' ;; Ok (b :: bs)
  end.

(** ** Grids and index-based sampling *)

(** [v[k]] for an index that is not negative. *)
Definition index {A : Type} (v : list A) (k : nat) : result A :=
  match nth_error v k with
  | Some a => Ok a
  | None => Raise IndexError
  end.

Section Grid.
Context {A : Type}.

(** [np.meshgrid(a, b)] with the default 'xy' indexing: both results have
    [len(b)] rows and [len(a)] columns; the first repeats [a] in every row,
    the second repeats [b[i]] along row [i]. *)
Definition meshgrid (a b : list A) : tensor A * tensor A :=
  (map (fun _ => a) b, map (fun v => map (fun _ => v) a) b).

(** [g.flatten()], in row-major order. *)
Definition flatten (g : tensor A) : list A := concat g.

(** [v[:, None]]: a column. *)
Definition newaxis (v : list A) : tensor A := map (fun a => [a]) v.

(** [v[ids]] for an array of indices. *)
Definition take (v : list A) (ids : list nat) : result (list A) :=
  traverse (index v) ids.

(** [g[ids, 0]] on an array [g] of [ncols] columns.  numpy checks the column
    index against the shape whatever [ids] holds, so an array without columns
    raises even for no index at all.  (The number of columns is given: the
    rows alone cannot tell it when there is no row.) *)
Definition take_rows_col0 (ncols : nat) (g : tensor A) (ids : list nat)
  : result (list A) :=
  if (0 <? ncols)%nat
  then traverse (fun k => row <- index g k ;; index row 0) ids
  else Raise IndexError.

(** [g[:, 0]]. *)
Definition col0 (g : tensor A) : result (list A) :=
  traverse (fun row => index row 0) g.

(** [np.hstack((a, b))] of two arrays with as many rows. *)
Definition hstack (a b : tensor A) : tensor A := zip_with (@app A) a b.

(** Lines 108-110 and 114-116: the two flattened coordinate columns. *)
Definition grid_columns (t x : list A) : tensor A * tensor A :=
  let (t_grid, x_grid) := meshgrid t x in
  let T := newaxis (flatten t_grid) in
  let X := newaxis (flatten x_grid) in
  (T, X).

(** Lines 121-123: the IC points. *)
Definition ic_points (t x : list A) (id_ic : list nat)
  : result (tensor A * tensor A) :=
  let (t_grid, x_grid) := meshgrid t x in
  x_ic0 <- take_rows_col0 (length t) x_grid id_ic ;;
  let x_ic := newaxis x_ic0 in
  t_ic0 <- take_rows_col0 (length t) t_grid id_ic ;;
  let t_ic := newaxis t_ic0 in
  let x_ic_train := hstack t_ic x_ic in
  Ok (x_ic, x_ic_train).

(** Lines 126-128: the interior points. *)
Definition interior_points (t x : list A) (id_f : list nat)
  : result (tensor A) :=
  let (T, X) := grid_columns t x in
  X0 <- col0 X ;;
  x_int0 <- take X0 id_f ;;
  let x_int := newaxis x_int0 in
  T0 <- col0 T ;;
  t_int0 <- take T0 id_f ;;
  let t_int := newaxis t_int0 in
  let x_int_train := hstack t_int x_int in
  Ok x_int_train.
End Grid.

Example meshgrid_small :
  meshgrid [0; 1; 2]%nat [10; 20]%nat =
  ([[0; 1; 2]; [0; 1; 2]]%nat, [[10; 10; 10]; [20; 20; 20]]%nat).
Proof. reflexivity. Qed.

Example interior_points_small :
  interior_points [0; 1; 2]%nat [10; 20]%nat [5; 1; 3]%nat =
  Ok [[2; 20]; [1; 10]; [0; 20]]%nat.
Proof. reflexivity. Qed.

Example ic_points_small :
  ic_points [0; 1; 2]%nat [10; 20]%nat [1; 0]%nat =
  Ok ([[20]; [10]]%nat, [[0; 20]; [0; 10]]%nat).
Proof. reflexivity. Qed.

Example interior_points_out_of_range :
  interior_points [0; 1; 2]%nat [10; 20]%nat [6]%nat = Raise IndexError.
Proof. reflexivity. Qed.

(** ** The initial condition *)

(** [u[i] = v] on an array. *)
Fixpoint assign {A : Type} (u : list A) (i : nat) (v : A) : list A :=
  match u, i with
  | [], _ => []
  | _ :: u', O => v :: u'
  | a :: u', S i' => a :: assign u' i' v
  end.

(** The test of line 90 on one entry. *)
Definition in_plateau (xi : R) : bool :=
  if Rle_dec (-0.5) xi then (if Rle_dec xi 0 then true else false) else false.

(** [IC] (lines 86-94).  [x] is a column, as in line 124, and [x[i]] is used
    through its single entry. *)
Definition IC (x : tensor R) : list R :=
  let N := length x in
  let u_init := repeat 0 (length x) in
  fold_left
    (fun u_init i =>
       if in_plateau (nth 0 (nth i x []) 0)
       then assign u_init i 1
       else assign u_init i 0)
    (seq 0 N) u_init.

(** The initial profile in the words of the specification. *)
Definition initial_profile (xi : R) : R :=
  if in_plateau xi then 1 else 0.

(** *** The loop of [IC] *)

Lemma assign_at {A : Type} (done : list A) (a v : A) (rest : list A) :
  assign (done ++ a :: rest) (length done) v = done ++ v :: rest.
Proof.
  induction done as [|b done IH]; simpl; [reflexivity|]. now rewrite IH.
Qed.

(** After the first [k] rounds the first [k] entries are set, the others are
    still the initial zeros. *)
Lemma IC_loop (f : nat -> R) (n k : nat) :
  (k <= n)%nat ->
  fold_left (fun u i => assign u i (f i)) (seq 0 k) (repeat 0 n) =
  map f (seq 0 k) ++ repeat 0 (n - k).
Proof.
  induction k as [|k IH]; intro K.
  - simpl. now rewrite Nat.sub_0_r.
  - rewrite seq_S, fold_left_app, IH by lia. simpl.
    replace (n - k)%nat with (S (n - S k)) by lia. simpl.
    pose proof (assign_at (map f (seq 0 k)) 0 (f k) (repeat 0 (n - S k))) as E.
    rewrite length_map, length_seq in E. rewrite E.
    now rewrite map_app, <- app_assoc.
Qed.

Lemma fold_left_same {A B : Type} (f g : A -> B -> A) (v : list B) (a : A) :
  (forall a b, f a b = g a b) -> fold_left f v a = fold_left g v a.
Proof.
  intro E. revert a. induction v as [|b v IH]; intro a; simpl;
    [reflexivity|]. now rewrite E, IH.
Qed.

Lemma IC_rows (x : tensor R) :
  IC x = map (fun row => initial_profile (nth 0 row 0)) x.
Proof.
  unfold IC. cbv zeta.
  rewrite (fold_left_same _
             (fun u i => assign u i (initial_profile (nth 0 (nth i x []) 0)))).
  - rewrite IC_loop by lia. rewrite Nat.sub_diag, app_nil_r.
    rewrite <- (map_map (fun i => nth i x [])
                        (fun row => initial_profile (nth 0 row 0))).
    now rewrite map_seq_nth.
  - intros u i. unfold initial_profile.
    now destruct (in_plateau (nth 0 (nth i x []) 0)).
Qed.

Lemma initial_profile_cases (xi : R) :
  (-0.5 <= xi <= 0 /\ initial_profile xi = 1) \/
  ((xi < -0.5 \/ 0 < xi) /\ initial_profile xi = 0).
Proof.
  unfold initial_profile, in_plateau.
  destruct (Rle_dec (-0.5) xi) as [L|L]; [destruct (Rle_dec xi 0) as [U|U]|].
  - left. now repeat split.
  - right. split; [right; lra|reflexivity].
  - right. split; [left; lra|reflexivity].
Qed.

(** C3.  On a column of reals [IC] returns, entry by entry, 1 where
    [-0.5 <= x <= 0] and 0 elsewhere, both ends included: [-0.5] and [0] give
    1, [0.0001] and [-0.5001] give 0. *)
Theorem IC_is_inclusive_step (v : list R) :
  Forall2 (fun xi ui => (-0.5 <= xi <= 0 /\ ui = 1) \/
                        ((xi < -0.5 \/ 0 < xi) /\ ui = 0))
          v (IC (newaxis v)) /\
  IC [[-0.5]] = [1] /\ IC [[0]] = [1] /\
  IC [[0.0001]] = [0] /\ IC [[-0.5001]] = [0].
Proof.
  split.
  - rewrite IC_rows. unfold newaxis. rewrite map_map. simpl.
    induction v as [|xi v IH]; simpl; constructor; [|exact IH].
    apply initial_profile_cases.
  - rewrite !IC_rows. simpl.
    repeat split; f_equal.
    + destruct (initial_profile_cases (-0.5)) as [[_ E]|[C _]];
        [exact E|lra].
    + destruct (initial_profile_cases 0) as [[_ E]|[C _]]; [exact E|lra].
    + destruct (initial_profile_cases 0.0001) as [[C _]|[_ E]];
        [lra|exact E].
    + destruct (initial_profile_cases (-0.5001)) as [[C _]|[_ E]];
        [lra|exact E].
Qed.

(** *** Row-major flattening *)

Lemma seq_from (a n : nat) : seq a n = map (fun i => (a + i)%nat) (seq 0 n).
Proof.
  revert a. induction n as [|n IH]; intro a; simpl; [reflexivity|].
  rewrite Nat.add_0_r. f_equal.
  rewrite (IH (S a)), <- seq_shift, map_map.
  apply map_ext. intro i. lia.
Qed.

Section Flattening.
Context {A : Type} (d : A).

(** Flattening the first grid: entry [k] is [t[k mod n_t]]. *)
Lemma flatten_t_grid (t x : list A) :
  flatten (fst (meshgrid t x)) =
  map (fun k => nth (k mod length t) t d)
      (seq 0 (length x * length t)).
Proof.
  unfold flatten, meshgrid. simpl fst.
  induction x as [|v x IH]; [reflexivity|].
  simpl map. simpl concat. rewrite IH.
  change (length (v :: x) * length t)%nat
    with (length t + length x * length t)%nat.
  rewrite seq_app, map_app. f_equal.
  - rewrite <- (map_seq_nth d t) at 1.
    apply map_ext_in. intros k K. apply in_seq in K.
    now rewrite Nat.mod_small by lia.
  - simpl. rewrite (seq_from (length t)), map_map.
    apply map_ext_in. intros k K. apply in_seq in K.
    f_equal.
    destruct (length t) as [|n] eqn:E; [lia|].
    rewrite <- (Nat.Div0.add_mod_idemp_l (S n) k (S n)).
    now rewrite Nat.Div0.mod_same.
Qed.

(** Flattening the second grid: entry [k] is [x[k div n_t]]. *)
Lemma flatten_x_grid (t x : list A) :
  flatten (snd (meshgrid t x)) =
  map (fun k => nth (k / length t) x d)
      (seq 0 (length x * length t)).
Proof.
  unfold flatten, meshgrid. simpl snd.
  induction x as [|v x IH]; [reflexivity|].
  simpl map. simpl concat. rewrite IH.
  change (length (v :: x) * length t)%nat
    with (length t + length x * length t)%nat.
  rewrite seq_app, map_app. f_equal.
  - rewrite <- (length_seq (length t) 0) at 1.
    rewrite <- (map_seq_nth d t) at 1. rewrite map_map.
    rewrite length_seq.
    apply map_ext_in. intros k K. apply in_seq in K.
    now rewrite Nat.div_small by lia.
  - simpl. rewrite (seq_from (length t)), map_map.
    apply map_ext_in. intros k K. apply in_seq in K.
    destruct (length t) as [|n] eqn:E; [lia|].
    replace ((S n + k) / S n)%nat with (S (k / S n)); [reflexivity|].
    replace (S n + k)%nat with (1 * S n + k)%nat by lia.
    rewrite Nat.div_add_l by lia. lia.
Qed.

Lemma index_map_seq (f : nat -> A) (n k : nat) :
  (k < n)%nat -> index (map f (seq 0 n)) k = Ok (f k).
Proof.
  intro K. unfold index.
  rewrite nth_error_map, nth_error_seq.
  apply Nat.ltb_lt in K. now rewrite K.
Qed.

Lemma take_map_seq (f : nat -> A) (n : nat) (ids : list nat) :
  Forall (fun k => (k < n)%nat) ids ->
  take (map f (seq 0 n)) ids = Ok (map f ids).
Proof.
  unfold take. induction 1 as [|k ids K _ IH]; simpl; [reflexivity|].
  now rewrite (index_map_seq f n k K), IH.
Qed.

Lemma col0_newaxis (v : list A) : col0 (newaxis v) = Ok v.
Proof.
  unfold col0, newaxis. induction v as [|a v IH]; simpl; [reflexivity|].
  now rewrite IH.
Qed.

Lemma hstack_columns {I : Type} (f g : I -> A) (ids : list I) :
  hstack (newaxis (map f ids)) (newaxis (map g ids)) =
  map (fun i => [f i; g i]) ids.
Proof.
  unfold hstack, newaxis. now rewrite !map_map, zip_with_map.
Qed.

Lemma index_nth (v : list A) (k : nat) :
  (k < length v)%nat -> index v k = Ok (nth k v d).
Proof.
  intro K. unfold index.
  now rewrite (nth_error_nth' v d K).
Qed.

Lemma take_x_grid (t x : list A) (ids : list nat) :
  (0 < length t)%nat -> Forall (fun i => (i < length x)%nat) ids ->
  take_rows_col0 (length t) (snd (meshgrid t x)) ids =
  Ok (map (fun i => nth i x d) ids).
Proof.
  intros T. unfold take_rows_col0, meshgrid. simpl snd.
  replace (0 <? length t)%nat with true
    by (symmetry; now apply Nat.ltb_lt).
  induction 1 as [|i ids K _ IH]; simpl; [reflexivity|].
  rewrite IH. unfold index at 1.
  rewrite nth_error_map, (nth_error_nth' x d K). simpl.
  destruct t as [|a t]; [simpl in T; lia|]. reflexivity.
Qed.

Lemma take_t_grid (t x : list A) (ids : list nat) :
  (0 < length t)%nat -> Forall (fun i => (i < length x)%nat) ids ->
  take_rows_col0 (length t) (fst (meshgrid t x)) ids =
  Ok (map (fun _ => nth 0 t d) ids).
Proof.
  intros T. unfold take_rows_col0, meshgrid. simpl fst.
  replace (0 <? length t)%nat with true
    by (symmetry; now apply Nat.ltb_lt).
  induction 1 as [|i ids K _ IH]; simpl; [reflexivity|].
  rewrite IH. unfold index at 1.
  rewrite nth_error_map, (nth_error_nth' x d K). simpl.
  destruct t as [|a t]; [simpl in T; lia|]. reflexivity.
Qed.
End Flattening.

Lemma grid_columns_newaxis (t x : list R) :
  grid_columns t x =
  (newaxis (map (fun k => nth (k mod length t) t 0)
                (seq 0 (length x * length t))),
   newaxis (map (fun k => nth (k / length t) x 0)
                (seq 0 (length x * length t)))).
Proof.
  change (grid_columns t x)
    with (newaxis (flatten (fst (meshgrid t x))),
          newaxis (flatten (snd (meshgrid t x)))).
  now rewrite (flatten_t_grid 0), (flatten_x_grid 0).
Qed.

(** C2.  Flattening is row-major with [x] as the slow index: row [k] of the
    flattened columns holds [t[k mod n_t]] and [x[k div n_t]].  Sampling by
    index keeps the two coordinates of a cell together: an interior index [k]
    yields the row [(t[k mod n_t], x[k div n_t])], an IC index [i] yields the
    row [(t[0], x[i])], and the target computed next to it is the initial
    profile at that same [x[i]]. *)
Theorem grid_sampling_correspondence (t x : list R) (id_ic id_f : list nat) :
  (0 < length t)%nat ->
  Forall (fun i => (i < length x)%nat) id_ic ->
  Forall (fun k => (k < length x * length t)%nat) id_f ->
  grid_columns t x =
    (map (fun k => [nth (k mod length t) t 0]) (seq 0 (length x * length t)),
     map (fun k => [nth (k / length t) x 0]) (seq 0 (length x * length t))) /\
  interior_points t x id_f =
    Ok (map (fun k => [nth (k mod length t) t 0; nth (k / length t) x 0])
            id_f) /\
  ic_points t x id_ic =
    Ok (map (fun i => [nth i x 0]) id_ic,
        map (fun i => [nth 0 t 0; nth i x 0]) id_ic) /\
  IC (map (fun i => [nth i x 0]) id_ic) =
    map (fun i => initial_profile (nth i x 0)) id_ic.
Proof.
  intros T Hic Hf. split; [|split; [|split]].
  - rewrite grid_columns_newaxis. unfold newaxis. now rewrite !map_map.
  - unfold interior_points. rewrite grid_columns_newaxis.
    rewrite !col0_newaxis. cbn [bind].
    rewrite !take_map_seq by exact Hf. cbn [bind].
    now rewrite hstack_columns.
  - unfold ic_points.
    change (meshgrid t x) with (fst (meshgrid t x), snd (meshgrid t x)).
    cbv iota.
    rewrite (take_x_grid 0 t x id_ic T Hic). cbn [bind].
    rewrite (take_t_grid 0 t x id_ic T Hic). cbn [bind].
    rewrite hstack_columns. unfold newaxis. now rewrite map_map.
  - rewrite IC_rows, map_map. reflexivity.
Qed.

Lemma grid_sampling_correspondence_witness :
  let t := [0; 1; 2] in
  let x := [10; 20] in
  interior_points t x [5; 1]%nat =
    Ok (map (fun k => [nth (k mod length t) t 0; nth (k / length t) x 0])
            [5; 1]%nat) /\
  ic_points t x [1; 0]%nat =
    Ok (map (fun i => [nth i x 0]) [1; 0]%nat,
        map (fun i => [nth 0 t 0; nth i x 0]) [1; 0]%nat).
Proof.
  intros t x.
  assert (T : (0 < length t)%nat) by (simpl; lia).
  assert (Hic : Forall (fun i => (i < length x)%nat) [1; 0]%nat)
    by (repeat constructor).
  assert (Hf : Forall (fun k => (k < length x * length t)%nat) [5; 1]%nat)
    by (repeat constructor; simpl; lia).
  destruct (grid_sampling_correspondence t x [1; 0]%nat [5; 1]%nat T Hic Hf)
    as (_ & F & C & _).
  now split.
Defined.

(** ** [to_numpy] *)

(** The values [to_numpy] can be given, by the outcome of its two
    [isinstance] tests; for any other value, what [type(input)] prints. *)
Inductive pyobj : Type :=
| PyTensor (t : tensor node)
| PyNdarray (a : tensor R)
| PyOther (type_name : string).

(** A node has history when a leaf occurs in it. *)
Fixpoint tracked (n : node) : bool :=
  match n with
  | Leaf _ => true
  | Const _ => false
  | Add a b | Sub a b | Mul a b | Div a b => tracked a || tracked b
  | Neg a | Pow a _ | Tanh a => tracked a
  end.

(** [t.detach()]: the same content, cut from the graph. *)
Definition detach (e : env) (t : tensor node) : tensor node :=
  map (map (fun n => Const (value e n))) t.

(** [t.cpu()]: everything already lives on the CPU (line 99). *)
Definition cpu (t : tensor node) : tensor node := t.

(** [t.numpy()]: refused by torch on a tensor that requires grad. *)
Definition numpy (e : env) (t : tensor node) : result (tensor R) :=
  if existsb (existsb tracked) t then Raise RuntimeError
  else Ok (map (map (value e)) t).

(** [to_numpy] (lines 76-83). *)
Definition to_numpy (e : env) (input : pyobj) : result pyobj :=
  match input with
  | PyTensor t => a <- numpy e (cpu (detach e t)) ;; Ok (PyNdarray a)
  | PyNdarray _ => Ok input
  | PyOther type_name =>
      Raise (TypeError
               ("Unknown type of input, expected torch.Tensor or " ++
                "np.ndarray, but got " ++ type_name)%string)
  end.

Lemma detach_untracked (e : env) (t : tensor node) :
  existsb (existsb tracked) (detach e t) = false.
Proof.
  unfold detach. induction t as [|row t IH]; simpl; [reflexivity|].
  rewrite IH, orb_false_r.
  induction row as [|n row IHr]; simpl; [reflexivity|exact IHr].
Qed.

Lemma value_detach (e : env) (t : tensor node) :
  map (map (value e)) (detach e t) = map (map (value e)) t.
Proof.
  unfold detach. rewrite map_map. apply map_ext. intro row.
  now rewrite map_map.
Qed.

Example to_numpy_list :
  to_numpy (fun _ => 0) (PyOther "<class 'list'>") =
  Raise (TypeError ("Unknown type of input, expected torch.Tensor or " ++
                    "np.ndarray, but got <class 'list'>")%string).
Proof. reflexivity. Qed.

Example numpy_requires_grad :
  numpy (fun _ => 0) [[Leaf (Theta 0)]] = Raise RuntimeError.
Proof. reflexivity. Qed.

Lemma to_numpy_tensor (e : env) (t : tensor node) :
  to_numpy e (PyTensor t) = Ok (PyNdarray (map (map (value e)) t)).
Proof.
  unfold to_numpy, numpy, cpu. now rewrite detach_untracked, value_detach.
Qed.

(** C10.  [to_numpy] returns the detached content of a tensor as an array,
    returns an array unchanged, and raises [TypeError] on anything else; what
    it returns is always an array. *)
Theorem to_numpy_total_on_two_types (e : env) :
  (forall t, to_numpy e (PyTensor t) =
             Ok (PyNdarray (map (map (value e)) t))) /\
  (forall a, to_numpy e (PyNdarray a) = Ok (PyNdarray a)) /\
  (forall type_name,
      exists msg, to_numpy e (PyOther type_name) = Raise (TypeError msg)) /\
  (forall input,
      match to_numpy e input with
      | Ok r => exists a, r = PyNdarray a
      | Raise err =>
          exists type_name msg,
            input = PyOther type_name /\ err = TypeError msg
      end).
Proof.
  split; [apply to_numpy_tensor|]. split; [reflexivity|]. split.
  - intro type_name. eexists. reflexivity.
  - intros [t|a|type_name].
    + rewrite to_numpy_tensor. now eexists.
    + simpl. now eexists.
    + simpl. now eexists _, _.
Qed.

(** ** The optimizer *)

(** [torch.optim.Adam(model.parameters(), lr=lr)] with torch's defaults
    (betas 0.9 and 0.999, eps 1e-8, no weight decay, no amsgrad).  The
    moments are kept flat, in the order of [model.parameters()]. *)
Record Adam : Type := {
  adam_lr : R;
  step_count : nat;
  exp_avg : list R;
  exp_avg_sq : list R
}.

Definition Adam_init (params : list R) (lr : R) : Adam :=
  {| adam_lr := lr;
     step_count := 0;
     exp_avg := map (fun _ => 0) params;
     exp_avg_sq := map (fun _ => 0) params |}.

Definition beta1 : R := 0.9.
Definition beta2 : R := 0.999.
Definition adam_eps : R := 1e-8.

(** One update of all parameters from their gradients. *)
Definition Adam_update (opt : Adam) (params grads : list R)
  : Adam * list R :=
  let step := S (step_count opt) in
  let m := zip_with (fun m g => beta1 * m + (1 - beta1) * g)
                    (exp_avg opt) grads in
  let v := zip_with (fun v g => beta2 * v + (1 - beta2) * (g * g))
                    (exp_avg_sq opt) grads in
  let bias_correction1 := 1 - beta1 ^ step in
  let bias_correction2 := 1 - beta2 ^ step in
  let step_size := adam_lr opt / bias_correction1 in
  let denom := map (fun vi => sqrt vi / sqrt bias_correction2 + adam_eps) v in
  let update := zip_with (fun mi di => step_size * (mi / di)) m denom in
  ({| adam_lr := adam_lr opt; step_count := step;
      exp_avg := m; exp_avg_sq := v |},
   zip_with Rminus params update).

(** ** The training program *)

(** What the program prints (the numbers as they are, not their decimal
    rendering; the elapsed wall-clock time is not modelled). *)
Inductive line : Type :=
| Text (s : string)
| LossLine (epoch : nat) (loss_pde loss_ic : R)
| TotalLine (epoch : nat) (loss : R)
| TrainingTime.

(** The constants of lines 100-105. *)
Record Config : Type := {
  lr : R;
  num_x : nat;
  num_t : nat;
  num_i_train : nat;
  epochs : nat;
  num_f_train : nat
}.

#[local] Set Warnings "-abstract-large-number".

Definition reference : Config :=
  {| lr := 0.0005;
     num_x := 1000;
     num_t := 1000;
     num_i_train := 1000;
     epochs := 49911;
     num_f_train := 11000 |}.

(** [np.linspace(start, stop, num)]. *)
Definition linspace (start stop : R) (num : nat) : list R :=
  map (fun i => start + INR i * ((stop - start) / INR (num - 1)))
      (seq 0 num).

(** What [scipy.io.savemat] is given. *)
Record Mat : Type := {
  mat_file : string;
  mat_x : list R;
  mat_t : list R;
  mat_u : list R
}.

Definition accumulate (old : option (list R)) (g : list R)
  : option (list R) :=
  match old with
  | None => Some g
  | Some o => Some (zip_with Rplus o g)
  end.

Definition accumulate2 (old : option (tensor R)) (g : tensor R)
  : option (tensor R) :=
  match old with
  | None => Some g
  | Some o => Some (zip_with (zip_with Rplus) o g)
  end.

Section Training.
(** The state of numpy's global generator, and
    [np.random.choice(n, k, replace=False)] on it. *)
Variable rng : Type.
Variable choice : rng -> nat -> nat -> result (list nat * rng).
(** The parameters [DNN()] starts from (torch's seeded initialisation). *)
Variable DNN_parameters : list R.

(** Everything [main] holds while it trains: the state of the program. *)
Record State : Type := {
  x_ic_train : tensor R;
  u_ic_train : list R;
  x_int_train : tensor R;
  x_test : tensor R;
  np_random : rng;
  training : bool;
  parameters : list R;
  parameters_grad : option (list R);
  x_int_train_grad : option (tensor R);
  optimizer : Adam;
  stdout : list line
}.

Definition set_training (b : bool) (s : State) : State :=
  {| x_ic_train := x_ic_train s; u_ic_train := u_ic_train s;
     x_int_train := x_int_train s; x_test := x_test s;
     np_random := np_random s; training := b;
     parameters := parameters s; parameters_grad := parameters_grad s;
     x_int_train_grad := x_int_train_grad s;
     optimizer := optimizer s; stdout := stdout s |}.

Definition set_grads (g : option (list R)) (gx : option (tensor R))
  (s : State) : State :=
  {| x_ic_train := x_ic_train s; u_ic_train := u_ic_train s;
     x_int_train := x_int_train s; x_test := x_test s;
     np_random := np_random s; training := training s;
     parameters := parameters s; parameters_grad := g;
     x_int_train_grad := gx;
     optimizer := optimizer s; stdout := stdout s |}.

Definition set_optimized (opt : Adam) (p : list R) (s : State)
  : State :=
  {| x_ic_train := x_ic_train s; u_ic_train := u_ic_train s;
     x_int_train := x_int_train s; x_test := x_test s;
     np_random := np_random s; training := training s;
     parameters := p; parameters_grad := parameters_grad s;
     x_int_train_grad := x_int_train_grad s;
     optimizer := opt; stdout := stdout s |}.

(** The state in which the parameters, and nothing else, are replaced. *)
Definition with_parameters (p : list R) (s : State) : State :=
  {| x_ic_train := x_ic_train s; u_ic_train := u_ic_train s;
     x_int_train := x_int_train s; x_test := x_test s;
     np_random := np_random s; training := training s;
     parameters := p; parameters_grad := parameters_grad s;
     x_int_train_grad := x_int_train_grad s;
     optimizer := optimizer s; stdout := stdout s |}.

Definition print (l : line) (s : State) : State :=
  {| x_ic_train := x_ic_train s; u_ic_train := u_ic_train s;
     x_int_train := x_int_train s; x_test := x_test s;
     np_random := np_random s; training := training s;
     parameters := parameters s; parameters_grad := parameters_grad s;
     x_int_train_grad := x_int_train_grad s;
     optimizer := optimizer s; stdout := stdout s ++ [l] |}.

(** [optimizer.zero_grad()]: the gradients of the parameters are dropped
    (those of the batch are not the optimizer's). *)
Definition zero_grad (s : State) : State :=
  set_grads None (x_int_train_grad s) s.

(** [loss.backward()]: the gradient of the scalar [loss] is added to the
    [.grad] of every leaf of its graph. *)
Definition backward (e : env) (loss : node) (s : State) : State :=
  set_grads
    (accumulate (parameters_grad s)
       (map (fun k => value e (backprop (Theta k) loss (Const 1)))
            (seq 0 (length (parameters s)))))
    (accumulate2 (x_int_train_grad s)
       (map (map (fun l => value e (backprop l loss (Const 1))))
            (requires_grad (x_int_train s))))
    s.

(** The graph of the total loss (line 151). *)
Definition total_loss (s : State) : node :=
  let loss_pde := loss_pde DNN_init (requires_grad (x_int_train s)) in
  let loss_ic := loss_ic theta_leaf DNN_init (constant (x_ic_train s))
                         (map Const (u_ic_train s)) in
  add (mul (cst 0.1) loss_pde) (mul (cst 10) loss_ic).

(** [closure] (lines 147-156); it returns the content of [loss]. *)
Definition closure (epoch : nat) (s : State) : R * State :=
  let s := zero_grad s in
  let e := env_of (parameters s) (x_int_train s) in
  let loss_pde := loss_pde DNN_init (requires_grad (x_int_train s)) in
  let loss_ic := loss_ic theta_leaf DNN_init (constant (x_ic_train s))
                         (map Const (u_ic_train s)) in
  let loss := add (mul (cst 0.1) loss_pde) (mul (cst 10) loss_ic) in
  let s := print (LossLine epoch (value e loss_pde) (value e loss_ic)) s in
  let s := backward e loss s in
  (value e loss, s).

(** [optimizer.step(closure)]: the closure is run, then every parameter
    that has a gradient is updated. *)
Definition optimizer_step (closure : State -> R * State) (s : State)
  : R * State :=
  let (loss, s) := closure s in
  match parameters_grad s with
  | Some g =>
      let (opt, p) := Adam_update (optimizer s) (parameters s) g in
      (loss, set_optimized opt p s)
  | None => (loss, s)
  end.

(** [train] (lines 145-162). *)
Definition train (epoch : nat) (s : State) : State :=
  let s := set_training true s in
  let (loss, s) := optimizer_step (closure epoch) s in
  let loss_value := loss in
  print (TotalLine epoch loss_value) s.

(** Lines 167-168; [range(1, epochs + 1)] is [seq 1 epochs]. *)
Definition training_loop (epochs : nat) (s : State) : State :=
  fold_left (fun s epoch => train epoch s) (seq 1 epochs) s.

(** Lines 106-142 of [main]: the grids, the two draws, the batches, the
    model and the optimizer. *)
Definition setup (c : Config) (g : rng) : result State :=
  let x := linspace (-2.625) 2.5 (num_x c) in
  let t := linspace 0 1.5 (num_t c) in
  let xs := linspace (-1) 1 (num_x c) in
  let ts := linspace 0 1.5 (num_t c) in
  let (Ts, Xs) := grid_columns ts xs in
  sample_ic <- choice g (num_x c) (num_i_train c) ;;
  let (id_ic, g) := sample_ic in
  sample_f <- choice g (num_x c * num_t c) (num_f_train c) ;;
  let (id_f, g) := sample_f in
  ic <- ic_points t x id_ic ;;
  let (x_ic, x_ic_train) := ic in
  let u_ic_train := IC x_ic in
  x_int_train <- interior_points t x id_f ;;
  let x_test := hstack Ts Xs in
  Ok {| x_ic_train := x_ic_train; u_ic_train := u_ic_train;
        x_int_train := x_int_train; x_test := x_test;
        np_random := g; training := true;
        parameters := DNN_parameters; parameters_grad := None;
        x_int_train_grad := None;
        optimizer := Adam_init DNN_parameters (lr c);
        stdout := [] |}.

(** [main] (lines 97-174) for given constants. *)
Definition main_with (c : Config) (g : rng) : result (State * Mat) :=
  s <- setup c g ;;
  let s := print (Text "Start training...") s in
  let s := training_loop (epochs c) s in
  let s := print TrainingTime s in
  let e := env_of (parameters s) (x_int_train s) in
  out <- to_numpy e (PyTensor (forward theta_leaf DNN_init
                                       (constant (x_test s)))) ;;
  match out with
  | PyNdarray u_pred =>
      Ok (s, {| mat_file := "Sod_Shock_Tube.mat";
                mat_x := linspace (-1) 1 (num_x c);
                mat_t := linspace 0 1.5 (num_t c);
                mat_u := col 0 0 u_pred |})
  | _ => Raise (TypeError "not an array")
  end.

Definition main : rng -> result (State * Mat) := main_with reference.
(** ** One epoch, spelled out *)

(** The gradient of the total loss in the parameters, as [loss.backward()]
    leaves it in their [.grad]. *)
Definition parameter_gradients (s : State) : list R :=
  let e := env_of (parameters s) (x_int_train s) in
  map (fun k => value e (backprop (Theta k) (total_loss s) (Const 1)))
      (seq 0 (length (parameters s))).

Definition batch_gradients (s : State) : tensor R :=
  let e := env_of (parameters s) (x_int_train s) in
  map (map (fun l => value e (backprop l (total_loss s) (Const 1))))
      (requires_grad (x_int_train s)).

Definition loss_pde_value (s : State) : R :=
  value (env_of (parameters s) (x_int_train s))
        (loss_pde DNN_init (requires_grad (x_int_train s))).

Definition loss_ic_value (s : State) : R :=
  value (env_of (parameters s) (x_int_train s))
        (loss_ic theta_leaf DNN_init (constant (x_ic_train s))
                 (map Const (u_ic_train s))).

Lemma train_unfold (epoch : nat) (s : State) :
  train epoch s =
  {| x_ic_train := x_ic_train s; u_ic_train := u_ic_train s;
     x_int_train := x_int_train s; x_test := x_test s;
     np_random := np_random s; training := true;
     parameters :=
       snd (Adam_update (optimizer s) (parameters s) (parameter_gradients s));
     parameters_grad := Some (parameter_gradients s);
     x_int_train_grad :=
       accumulate2 (x_int_train_grad s) (batch_gradients s);
     optimizer :=
       fst (Adam_update (optimizer s) (parameters s) (parameter_gradients s));
     stdout :=
       (stdout s ++ [LossLine epoch (loss_pde_value s) (loss_ic_value s)]) ++
       [TotalLine epoch (0.1 * loss_pde_value s + 10 * loss_ic_value s)] |}.
Proof. reflexivity. Qed.

(** C4.  In every epoch the scalar built by the closure is
    [0.1 * loss_pde + 10 * loss_ic]: this is the number reported as the
    epoch's loss, the gradient that [backward] leaves in the parameters is, in
    each parameter, the exact derivative of that weighted sum, and it is this
    gradient that the optimizer's update receives.  The two weights are the
    same in every epoch. *)
Theorem weighted_total_loss_drives_step (epoch : nat) (s : State) :
  Forall (fun row => length row = 2%nat) (x_int_train s) ->
  x_int_train s <> [] ->
  x_ic_train s <> [] ->
  length (u_ic_train s) = length (x_ic_train s) ->
  let e := env_of (parameters s) (x_int_train s) in
  let l_pde := loss_pde DNN_init (requires_grad (x_int_train s)) in
  let l_ic := loss_ic theta_leaf DNN_init (constant (x_ic_train s))
                      (map Const (u_ic_train s)) in
  let grads :=
    map (fun k => value e (backprop (Theta k) (total_loss s) (Const 1)))
        (seq 0 (length (parameters s))) in
  let s' := train epoch s in
  value e (total_loss s) = 0.1 * value e l_pde + 10 * value e l_ic /\
  fst (optimizer_step (closure epoch) s) =
    0.1 * value e l_pde + 10 * value e l_ic /\
  (forall k,
      derivable_pt_lim
        (fun h => 0.1 * value (upd e (Theta k) h) l_pde +
                  10 * value (upd e (Theta k) h) l_ic)
        (e (Theta k))
        (value e (backprop (Theta k) (total_loss s) (Const 1)))) /\
  parameters_grad s' = Some grads /\
  (optimizer s', parameters s') =
    Adam_update (optimizer s) (parameters s) grads /\
  stdout s' =
    stdout s ++ [LossLine epoch (value e l_pde) (value e l_ic);
                 TotalLine epoch (0.1 * value e l_pde + 10 * value e l_ic)].
Proof.
  intros S Nx Nic L e l_pde l_ic grads s'.
  split; [reflexivity|]. split; [reflexivity|]. split; [|split; [|split]].
  - intro k.
    assert (W : wf e (total_loss s)).
    { unfold total_loss. cbn [wf add mul cst Arith_node].
      split; (split; [exact I|]).
      - now apply wf_loss_pde.
      - now apply wf_loss_ic. }
    destruct (backprop_sound e (Theta k) (total_loss s) W) as (d & D & G).
    rewrite G. cbn [value]. rewrite Rmult_1_l. exact D.
  - unfold s'. rewrite train_unfold. reflexivity.
  - unfold s'. rewrite train_unfold. cbn [optimizer parameters].
    fold e. symmetry. apply surjective_pairing.
  - unfold s'. rewrite train_unfold. cbn [stdout].
    now rewrite <- app_assoc.
Qed.

(** *** The loop *)

(** The epoch numbers of the lines printed after each optimizer step. *)
Definition reported_epochs (out : list line) : list nat :=
  flat_map (fun l => match l with TotalLine epoch _ => [epoch] | _ => [] end)
           out.

Lemma reported_epochs_app (a b : list line) :
  reported_epochs (a ++ b) = reported_epochs a ++ reported_epochs b.
Proof. apply flat_map_app. Qed.

Lemma training_loop_S (n : nat) (s : State) :
  training_loop (S n) s = train (S n) (training_loop n s).
Proof.
  unfold training_loop. now rewrite seq_S, fold_left_app.
Qed.

Lemma training_loop_steps (n : nat) (s : State) :
  step_count (optimizer (training_loop n s)) =
    (step_count (optimizer s) + n)%nat /\
  reported_epochs (stdout (training_loop n s)) =
    reported_epochs (stdout s) ++ seq 1 n.
Proof.
  induction n as [|n [IHs IHo]].
  - simpl. now rewrite Nat.add_0_r, app_nil_r.
  - rewrite training_loop_S, train_unfold. cbn [optimizer stdout]. split.
    + cbn [Adam_update fst step_count]. rewrite IHs. lia.
    + rewrite !reported_epochs_app, IHo, seq_S.
      cbn [reported_epochs flat_map app].
      now rewrite app_nil_r, <- app_assoc.
Qed.

(** What an epoch leaves as it was. *)
Definition same_data (s s' : State) : Prop :=
  x_int_train s' = x_int_train s /\
  x_ic_train s' = x_ic_train s /\
  u_ic_train s' = u_ic_train s /\
  x_test s' = x_test s /\
  np_random s' = np_random s.

Lemma train_same_data (epoch : nat) (s : State) :
  same_data s (train epoch s).
Proof. rewrite train_unfold. now repeat split. Qed.

Lemma training_loop_same_data (n : nat) (s : State) :
  same_data s (training_loop n s).
Proof.
  induction n as [|n IH]; [now repeat split|].
  rewrite training_loop_S.
  destruct IH as (I1 & I2 & I3 & I4 & I5).
  destruct (train_same_data (S n) (training_loop n s))
    as (T1 & T2 & T3 & T4 & T5).
  repeat split; congruence.
Qed.

(** What [setup] returns when neither draw nor indexing raises. *)
Lemma setup_result (c : Config) (g : rng) (s0 : State) :
  setup c g = Ok s0 ->
  exists id_ic g1 id_f g2 x_ic,
    choice g (num_x c) (num_i_train c) = Ok (id_ic, g1) /\
    choice g1 (num_x c * num_t c) (num_f_train c) = Ok (id_f, g2) /\
    ic_points (linspace 0 1.5 (num_t c)) (linspace (-2.625) 2.5 (num_x c))
              id_ic = Ok (x_ic, x_ic_train s0) /\
    u_ic_train s0 = IC x_ic /\
    interior_points (linspace 0 1.5 (num_t c))
                    (linspace (-2.625) 2.5 (num_x c)) id_f =
      Ok (x_int_train s0) /\
    np_random s0 = g2 /\
    parameters s0 = DNN_parameters /\
    step_count (optimizer s0) = 0%nat /\
    stdout s0 = [].
Proof.
  unfold setup. cbv zeta.
  destruct (grid_columns (linspace 0 1.5 (num_t c))
                         (linspace (-1) 1 (num_x c))) as [Ts Xs].
  destruct (choice g (num_x c) (num_i_train c)) as [[id_ic g1]|] eqn:C1;
    [|discriminate]. cbn [bind].
  destruct (choice g1 (num_x c * num_t c) (num_f_train c))
    as [[id_f g2]|] eqn:C2; [|discriminate]. cbn [bind].
  destruct (ic_points _ _ id_ic) as [[x_ic xt]|] eqn:P1; [|discriminate].
  cbn [bind].
  destruct (interior_points _ _ id_f) as [xi|] eqn:P2; [|discriminate].
  cbn [bind]. intro E. injection E as <-.
  exists id_ic, g1, id_f, g2, x_ic.
  cbn [x_ic_train u_ic_train x_int_train np_random parameters optimizer
       stdout step_count Adam_init].
  now repeat split.
Qed.

Lemma main_with_result (c : Config) (g : rng) (s0 : State) :
  setup c g = Ok s0 ->
  exists m,
    main_with c g =
    Ok (print TrainingTime
          (training_loop (epochs c) (print (Text "Start training...") s0)), m).
Proof.
  intro E. unfold main_with. rewrite E. cbn [bind].
  rewrite to_numpy_tensor. cbn [bind]. now eexists.
Qed.

(** C8.  The reference budget is 49911 epochs.  The loop runs [train] once
    for each of [1 .. epochs], in increasing order and whatever the losses
    are: after it the optimizer has made exactly [epochs] more steps and the
    epochs reported are [1 .. epochs].  Once the batches are set up, [main]
    runs the whole budget and returns. *)
Theorem training_runs_fixed_budget :
  epochs reference = 49911%nat /\
  (forall (n : nat) (s : State),
      step_count (optimizer (training_loop n s)) =
        (step_count (optimizer s) + n)%nat /\
      reported_epochs (stdout (training_loop n s)) =
        reported_epochs (stdout s) ++ seq 1 n) /\
  (forall (c : Config) (g : rng),
      match setup c g with
      | Ok _ =>
          exists s m,
            main_with c g = Ok (s, m) /\
            step_count (optimizer s) = epochs c /\
            reported_epochs (stdout s) = seq 1 (epochs c)
      | Raise err => main_with c g = Raise err
      end).
Proof.
  split; [reflexivity|]. split; [exact training_loop_steps|].
  intros c g. destruct (setup c g) as [s0|err] eqn:E.
  - destruct (main_with_result c g s0 E) as (m & M).
    destruct (setup_result c g s0 E)
      as (_ & _ & _ & _ & _ & _ & _ & _ & _ & _ & _ & _ & St & Out).
    eexists _, m. split; [exact M|].
    destruct (training_loop_steps (epochs c)
                (print (Text "Start training...") s0)) as [Hs Ho].
    split.
    + cbn [print optimizer]. cbn [print optimizer] in Hs.
      rewrite Hs, St. reflexivity.
    + cbn [print stdout]. cbn [print stdout] in Ho.
      rewrite reported_epochs_app, Ho, Out. simpl. now rewrite app_nil_r.
  - unfold main_with. now rewrite E.
Qed.

(** C9 (amended).  The two draws are made by [setup], before the loop, and
    nowhere else: the generator that [main] ends with is the one the second
    draw returned.  Every epoch, and so the whole loop, leaves the content of
    the interior batch, of the IC batch, of the IC targets and of the dense
    grid as it was.  The parameters change only by the optimizer's update;
    what an epoch changes besides them is the gradient buffers (of the
    parameters, and of the interior batch, to which [backward] adds and which
    nothing resets), the optimizer's own state and the printed output. *)
Theorem sampling_once_batches_fixed :
  (forall (epoch : nat) (s : State),
      train epoch s =
      {| x_ic_train := x_ic_train s; u_ic_train := u_ic_train s;
         x_int_train := x_int_train s; x_test := x_test s;
         np_random := np_random s; training := true;
         parameters :=
           snd (Adam_update (optimizer s) (parameters s)
                            (parameter_gradients s));
         parameters_grad := Some (parameter_gradients s);
         x_int_train_grad :=
           accumulate2 (x_int_train_grad s) (batch_gradients s);
         optimizer :=
           fst (Adam_update (optimizer s) (parameters s)
                            (parameter_gradients s));
         stdout :=
           (stdout s ++
            [LossLine epoch (loss_pde_value s) (loss_ic_value s)]) ++
           [TotalLine epoch
              (0.1 * loss_pde_value s + 10 * loss_ic_value s)] |}) /\
  (forall (n : nat) (s : State), same_data s (training_loop n s)) /\
  (forall (c : Config) (g : rng),
      match main_with c g with
      | Ok (s, _) =>
          exists s0 id_ic g1 id_f g2,
            setup c g = Ok s0 /\
            choice g (num_x c) (num_i_train c) = Ok (id_ic, g1) /\
            choice g1 (num_x c * num_t c) (num_f_train c) = Ok (id_f, g2) /\
            np_random s = g2 /\
            same_data s0 s
      | Raise _ => True
      end).
Proof.
  split; [|split].
  - exact train_unfold.
  - exact training_loop_same_data.
  - intros c g. destruct (main_with c g) as [[s m]|err] eqn:M; [|exact I].
    destruct (setup c g) as [s0|err] eqn:E.
    + destruct (main_with_result c g s0 E) as (m' & M').
      rewrite M' in M. injection M as <- _.
      destruct (setup_result c g s0 E)
        as (id_ic & g1 & id_f & g2 & x_ic & C1 & C2 & _ & _ & _ & G & _).
      pose proof (training_loop_same_data (epochs c)
                    (print (Text "Start training...") s0)) as D.
      exists s0, id_ic, g1, id_f, g2.
      repeat split; try assumption; try apply D.
      destruct D as (_ & _ & _ & _ & D). cbn [print np_random] in *.
      now rewrite D.
    + unfold main_with in M. rewrite E in M. discriminate.
Qed.

End Training.

Arguments x_ic_train {rng} _.
Arguments u_ic_train {rng} _.
Arguments x_int_train {rng} _.
Arguments x_test {rng} _.
Arguments np_random {rng} _.
Arguments training {rng} _.
Arguments parameters {rng} _.
Arguments parameters_grad {rng} _.
Arguments x_int_train_grad {rng} _.
Arguments optimizer {rng} _.
Arguments stdout {rng} _.
Arguments total_loss {rng} _.
Arguments with_parameters {rng} _ _.
Arguments train {rng} _ _.
Arguments training_loop {rng} _ _.

(** ** The theorems at concrete inputs *)

(** Parameters of the right number, all equal. *)
Definition flat_parameters : list R := repeat 0.1 (numel_seq DNN_init).

Lemma loss_pde_mean_squared_residual_witness :
  exists r : list R,
    value (env_of flat_parameters [[0; 1]; [1.5; -0.25]])
          (loss_pde DNN_init (requires_grad [[0; 1]; [1.5; -0.25]])) =
    fold_right Rplus 0 (map (fun v => v ^ 2) r) / INR (length r) /\
    length r = 2%nat.
Proof.
  destruct (loss_pde_mean_squared_residual
              flat_parameters [[0; 1]; [1.5; -0.25]]) as (_ & M).
  - repeat constructor.
  - destruct M as (r & E & F); [discriminate|].
    exists r. split; [exact E|].
    symmetry. exact (Forall2_length F).
Defined.



(** C7, as first stated, where a loss is nan, which is not at least 0: both
    losses on the empty batch, and the residual loss at one point when the
    network output is [1e20], whose square overflows. *)
Lemma losses_nan_not_nonnegative :
  ~ nonnegative
      (xvalue (env_of flat_parameters [])
              (loss_pde DNN_init (requires_grad []))) /\
  ~ nonnegative
      (xvalue (env_of flat_parameters [])
              (loss_ic theta_leaf DNN_init (constant []) (map Const []))) /\
  ~ nonnegative
      (xvalue (env_of overflowing_parameters [[0; 0]])
              (loss_pde DNN_init (requires_grad [[0; 0]]))).
Proof.
  rewrite loss_pde_empty, loss_ic_empty, loss_pde_overflow.
  cbn [nonnegative]. tauto.
Qed.

(** A state of the program with one interior point and two IC points. *)
Definition small_state : State unit :=
  {| x_ic_train := [[0; -0.5]; [0; 2]];
     u_ic_train := [1; 0];
     x_int_train := [[0.75; 0.25]];
     x_test := [[0; -1]; [1.5; 1]];
     np_random := tt;
     training := true;
     parameters := flat_parameters;
     parameters_grad := None;
     x_int_train_grad := None;
     optimizer := Adam_init flat_parameters 0.0005;
     stdout := [] |}.

Lemma weighted_total_loss_drives_step_witness :
  let e := env_of (parameters small_state) (x_int_train small_state) in
  value e (total_loss small_state) =
  0.1 * value e (loss_pde DNN_init (requires_grad (x_int_train small_state)))
  + 10 * value e (loss_ic theta_leaf DNN_init
                          (constant (x_ic_train small_state))
                          (map Const (u_ic_train small_state))).
Proof.
  destruct (weighted_total_loss_drives_step unit 1%nat small_state)
    as (E & _).
  - repeat constructor.
  - discriminate.
  - discriminate.
  - reflexivity.
  - exact E.
Defined.

(** C9, as first stated, at [small_state]: the first epoch does not only
    replace the parameters.  It also leaves a gradient in the parameters'
    buffer and in the buffer of the interior batch, and the optimizer has
    counted a step. *)
Lemma epoch_changes_more_than_parameters :
  let s' := train 1%nat small_state in
  s' <> with_parameters (parameters s') small_state /\
  parameters_grad s' <> parameters_grad small_state /\
  x_int_train_grad s' <> x_int_train_grad small_state /\
  step_count (optimizer s') <> step_count (optimizer small_state).
Proof.
  cbv zeta. rewrite train_unfold.
  split; [|split; [|split]].
  - intro E. apply (f_equal parameters_grad) in E.
    cbn [parameters_grad with_parameters small_state] in E. discriminate.
  - cbn [parameters_grad small_state]. discriminate.
  - cbn [x_int_train_grad small_state accumulate2]. discriminate.
  - cbn [optimizer small_state Adam_update Adam_init fst step_count].
    discriminate.
Qed.

(** * Further properties of the code *)

(** ** [DNN.forward] (lines 44-45) *)

(** X1.  On a batch of rows of width 2 the network returns one row per input
    row, each of width 1: an (N, 2) batch gives an (N, 1) output. *)
Theorem forward_output_shape {A : Type} `{Arith A} (theta : nat -> A)
  (x : tensor A) :
  Forall (fun row => length row = 2%nat) x ->
  length (forward theta DNN_init x) = length x /\
  Forall (fun row => length row = 1%nat) (forward theta DNN_init x).
Proof.
  intros _. split; [apply forward_length|].
  rewrite forward_rows. apply Forall_forall. intros row K.
  apply in_map_iff in K as (r & <- & _). apply row_forward_width.
Qed.

Lemma forward_output_shape_witness :
  length (forward (fun k => nth k flat_parameters 0) DNN_init
                  [[0; 1]; [1.5; -0.25]]) = 2%nat.
Proof.
  destruct (forward_output_shape (fun k => nth k flat_parameters 0)
              [[0; 1]; [1.5; -0.25]]) as [L _].
  - repeat constructor.
  - exact L.
Defined.

(** ** [gradients] (lines 72-73) *)

Lemma concat_ones_like (t : tensor node) :
  concat (ones_like t) = map (fun _ => Const 1) (concat t).
Proof.
  unfold ones_like. induction t as [|row t IH]; simpl; [reflexivity|].
  now rewrite IH, map_app.
Qed.

Lemma combine_with_ones (l : leaf) (v : list node) :
  map (fun og => backprop l (fst og) (snd og))
      (combine v (map (fun _ => Const 1) v)) =
  map (fun o => backprop l o (Const 1)) v.
Proof.
  induction v as [|o v IH]; simpl; [reflexivity|]. now rewrite IH.
Qed.

(** The derivative of a sum of node values is the sum of what each node
    sends back. *)
Lemma sum_derivative (e : env) (l : leaf) (v : list node) :
  Forall (wf e) v ->
  derivable_pt_lim (fun h => sum_list (map (value (upd e l h)) v)) (e l)
    (value e (sum_list (map (fun o => backprop l o (Const 1)) v))).
Proof.
  induction 1 as [|o v W _ IH].
  - apply (derivable_pt_lim_const 0).
  - destruct (backprop_sound e l o W) as (d & D & G).
    cbn [map sum_list fold_right add Arith_node value]. rewrite G.
    cbn [value]. rewrite Rmult_1_l.
    exact (derivable_pt_lim_plus _ _ _ _ _ D IH).
Qed.

Lemma Forall2_map_right {A B : Type} (P : A -> B -> Prop) (f : A -> B)
  (v : list A) :
  (forall a, List.In a v -> P a (f a)) -> Forall2 P v (map f v).
Proof.
  induction v as [|a v IH]; simpl; intro F; constructor.
  - apply F. now left.
  - apply IH. intros b K. apply F. now right.
Qed.

(** X3.  With [grad_outputs] all ones, [gradients(outputs, inputs)] has the
    shape of [inputs], and each of its entries is the exact derivative, in
    the corresponding entry of [inputs], of the sum of all entries of
    [outputs]; this for inputs that the outputs were computed from (torch
    refuses the others) and a graph that divides by nothing that is zero. *)
Theorem gradients_differentiates_the_sum (e : env) (outputs : tensor node)
  (inputs : tensor leaf) :
  Forall (Forall (fun l => existsb (mentions l) (concat outputs) = true))
         inputs ->
  Forall (Forall (wf e)) outputs ->
  Forall2
    (Forall2 (fun l g =>
       derivable_pt_lim
         (fun h => sum_list (map (value (upd e l h)) (concat outputs)))
         (e l) (value e g)))
    inputs (nth 0 (gradients outputs inputs) []).
Proof.
  intros _ W.
  assert (Wc : Forall (wf e) (concat outputs)).
  { induction W as [|row t Wr _ IH]; simpl; [constructor|].
    apply Forall_app. now split. }
  unfold gradients, autograd_grad. cbn [nth].
  apply Forall2_map_right. intros row _.
  apply Forall2_map_right. intros l _.
  rewrite concat_ones_like, combine_with_ones.
  now apply sum_derivative.
Qed.

Lemma gradients_differentiates_the_sum_witness :
  let e := env_of [] [[2; 3]] in
  let x0 := Leaf (XEntry 0 0) in
  let x1 := Leaf (XEntry 0 1) in
  Forall2
    (Forall2 (fun l g =>
       derivable_pt_lim
         (fun h => sum_list (map (value (upd e l h))
                                 (concat [[Mul x0 x1]; [Div x0 (Const 2)]])))
         (e l) (value e g)))
    [[XEntry 0 0; XEntry 0 1]]
    (nth 0 (gradients [[Mul x0 x1]; [Div x0 (Const 2)]]
                      [[XEntry 0 0; XEntry 0 1]]) []).
Proof.
  apply gradients_differentiates_the_sum.
  - repeat constructor.
  - repeat constructor; simpl; lra.
Defined.

(** ** The flux of line 53 *)

Lemma flux_bounds (u : R) : 0 <= flux u <= 1 / 4.
Proof.
  rewrite flux_R. pose proof (flux_denominator_gt_0 u) as P.
  pose proof (pow2_ge_0 u). pose proof (pow2_ge_0 (1 - u)).
  split.
  - apply Rmult_le_pos; [assumption|].
    now apply Rlt_le, Rinv_0_lt_compat.
  - apply Rmult_le_reg_r with (r := flux_denominator u); [exact P|].
    unfold Rdiv at 1. rewrite Rmult_assoc, Rinv_l, Rmult_1_r by lra.
    unfold flux_denominator. lra.
Qed.

Lemma xpow_fin_2_cases (s : R) :
  xpow (fin s) 2 = PInf \/ xpow (fin s) 2 = Fin (s ^ 2).
Proof.
  unfold fin.
  destruct (Rlt_dec max32 s); [now left|].
  destruct (Rlt_dec s (- max32)); [now left|].
  cbn [xpow]. apply fin_nonneg, pow2_ge_0.
Qed.

(** The flux of a float: nan when the square of [u] overflows, and a number
    of [[0, 1/4]] otherwise (0 when only the denominator overflows). *)
Lemma flux_float_range (v : xreal) :
  flux v = NaN \/ exists r : R, flux v = Fin r /\ 0 <= r <= 1 / 4.
Proof.
  unfold flux. cbn [div pw add mul sub cst Arith_xreal].
  rewrite fin_1, (fin_in_range 4) by (unfold max32; lra).
  assert (Z : exists r : R, Fin 0 = Fin r /\ 0 <= r <= 1 / 4)
    by (exists 0; split; [reflexivity|lra]).
  destruct v as [r| | |].
  - cbn [xpow xsub xneg xadd].
    change (match fin (1 + - r) with
            | Fin r0 => fin (r0 ^ 2)
            | PInf => PInf
            | NInf => if Nat.even 2 then PInf else NInf
            | NaN => NaN
            end) with (xpow (fin (1 + - r)) 2).
    destruct (fin_nonneg (r ^ 2) (pow2_ge_0 r)) as [E|E]; rewrite E.
    + left. cbn [xmul]. rewrite scale_pos by lra.
      destruct (xpow_fin_2_cases (1 + - r)) as [Q|Q]; rewrite Q; reflexivity.
    + cbn [xmul].
      assert (P4 : 0 <= 4 * r ^ 2) by (pose proof (pow2_ge_0 r); lra).
      destruct (fin_nonneg (4 * r ^ 2) P4) as [D|D]; rewrite D;
        (destruct (xpow_fin_2_cases (1 + - r)) as [Q|Q]; rewrite Q);
        cbn [xadd xdiv]; try (right; exact Z).
      replace (1 + - r) with (1 - r) by ring.
      pose proof (flux_denominator_gt_0 r) as Pd.
      pose proof (flux_bounds r) as Fb. rewrite flux_R in Fb.
      unfold flux_denominator in Pd, Fb.
      destruct (fin_nonneg (4 * r ^ 2 + (1 - r) ^ 2)) as [S|S];
        [lra|rewrite S..].
      * right. exact Z.
      * cbn [xdiv].
        destruct (Req_dec_T (4 * r ^ 2 + (1 - r) ^ 2) 0); [lra|].
        right. exists (r ^ 2 / (4 * r ^ 2 + (1 - r) ^ 2)).
        split; [|exact Fb].
        apply fin_in_range. unfold max32. lra.
  - left. cbn [xpow xsub xneg xadd xmul Nat.even].
    now rewrite scale_pos by lra.
  - left. cbn [xpow xsub xneg xadd xmul Nat.even].
    now rewrite scale_pos by lra.
  - now left.
Qed.

(** X5.  Every entry of the tensor [F] of line 53 is nan or a number of
    [[0, 1/4]], for any tensor [u] and any content of the leaves.  nan
    occurs: for [u = 1e20] the square overflows and [F] is [inf / inf]. *)
Theorem flux_between_0_and_quarter :
  (forall (e : env) (u : tensor node),
      Forall (Forall (fun f =>
                xvalue e f = NaN \/
                exists r : R, xvalue e f = Fin r /\ 0 <= r <= 1 / 4))
             (tdiv (tpow u 2)
                   (tadd (smul (cst 4) (tpow u 2))
                         (tpow (ssub (cst 1) u) 2)))) /\
  (forall e : env,
      map (map (xvalue e))
          (let u := [[Const 1e20]] in
           tdiv (tpow u 2)
                (tadd (smul (cst 4) (tpow u 2)) (tpow (ssub (cst 1) u) 2)))
      = [[NaN]]).
Proof.
  split.
  - intros e u. unfold tdiv, tadd, smul, tpow, ssub, vpow.
    rewrite !map_map, zip_with_map, zip_with_map.
    apply Forall_forall. intros row K.
    apply in_map_iff in K as (r & <- & _).
    rewrite !map_map, zip_with_map, zip_with_map.
    apply Forall_forall. intros f K.
    apply in_map_iff in K as (a & <- & _).
    exact (flux_float_range (xvalue e a)).
  - intro e. cbv zeta.
    change (tdiv (tpow [[Const 1e20]] 2)
              (tadd (smul (cst 4) (tpow [[Const 1e20]] 2))
                    (tpow (ssub (cst 1) [[Const 1e20]]) 2)))
      with [[flux (Const 1e20)]].
    cbn [map]. do 2 f_equal.
    unfold flux. cbn [div pw add mul sub cst Arith_node xvalue].
    assert (P2 : xpow (xsub (fin 1) (fin 1e20)) 2 = PInf).
    { rewrite fin_1, (fin_in_range 1e20) by (unfold max32; lra).
      unfold xsub. cbn [xneg xadd].
      rewrite fin_in_range by (unfold max32; lra).
      cbn [xpow]. apply fin_overflow. unfold max32. lra. }
    rewrite P2, (fin_in_range 1e20), (fin_in_range 4)
      by (unfold max32; lra).
    cbn [xpow]. rewrite fin_overflow by (unfold max32; lra).
    cbn [xmul]. now rewrite scale_pos by lra.
Qed.

(** ** [IC] (lines 86-94) *)

(** X6.  [IC] returns one value per entry of the column it is given (none
    for an empty column), and every value is 0 or 1. *)
Theorem IC_length_and_range (v : list R) :
  length (IC (newaxis v)) = length v /\
  Forall (fun u => u = 0 \/ u = 1) (IC (newaxis v)) /\
  IC [] = [].
Proof.
  rewrite IC_rows. unfold newaxis. rewrite !length_map.
  split; [reflexivity|]. split; [|reflexivity].
  apply Forall_forall. intros u K.
  apply in_map_iff in K as (row & <- & _).
  unfold initial_profile. destruct (in_plateau (nth 0 row 0)); auto.
Qed.

(** ** [to_numpy] (lines 76-83) *)

(** X7.  Converting twice is converting once: whatever [to_numpy] returns,
    it returns unchanged when given it again. *)
Theorem to_numpy_idempotent (e : env) (input : pyobj) :
  match to_numpy e input with
  | Ok r => to_numpy e r = Ok r
  | Raise _ => True
  end.
Proof.
  destruct input as [t|a|type_name].
  - now rewrite to_numpy_tensor.
  - reflexivity.
  - exact I.
Qed.

(** ** Index-based sampling in [main] (lines 121-128) *)

Lemma traverse_decide {A B : Type} (f : A -> result B) (ok : A -> bool)
  (g : A -> B) (err : exn) (v : list A) :
  (forall a, f a = if ok a then Ok (g a) else Raise err) ->
  traverse f v = if forallb ok v then Ok (map g v) else Raise err.
Proof.
  intro F. induction v as [|a v IH]; simpl; [reflexivity|].
  rewrite F. destruct (ok a); simpl; [|reflexivity].
  rewrite IH. now destruct (forallb ok v).
Qed.

Lemma index_map_seq_decide {A : Type} (f : nat -> A) (n k : nat) :
  index (map f (seq 0 n)) k =
  if (k <? n)%nat then Ok (f k) else Raise IndexError.
Proof.
  unfold index. rewrite nth_error_map, nth_error_seq.
  now destruct (k <? n)%nat.
Qed.

Lemma take_rows_col0_x_grid (t x : list R) (ids : list nat) :
  take_rows_col0 (length t) (snd (meshgrid t x)) ids =
  if ((0 <? length t) && forallb (fun i => i <? length x) ids)%nat
  then Ok (map (fun i => nth i x 0) ids) else Raise IndexError.
Proof.
  unfold take_rows_col0.
  destruct (0 <? length t)%nat eqn:T; [|reflexivity]. cbn [andb].
  apply traverse_decide. intro i.
  unfold meshgrid. cbn [snd]. unfold index at 1. rewrite nth_error_map.
  destruct (i <? length x)%nat eqn:I.
  - apply Nat.ltb_lt in I. rewrite (nth_error_nth' x 0 I). cbn.
    destruct t as [|a t]; [discriminate|reflexivity].
  - apply Nat.ltb_ge in I. apply nth_error_None in I. now rewrite I.
Qed.

Lemma take_rows_col0_t_grid (t x : list R) (ids : list nat) :
  take_rows_col0 (length t) (fst (meshgrid t x)) ids =
  if ((0 <? length t) && forallb (fun i => i <? length x) ids)%nat
  then Ok (map (fun _ => nth 0 t 0) ids) else Raise IndexError.
Proof.
  unfold take_rows_col0.
  destruct (0 <? length t)%nat eqn:T; [|reflexivity]. cbn [andb].
  apply traverse_decide. intro i.
  unfold meshgrid. cbn [fst]. unfold index at 1. rewrite nth_error_map.
  destruct (i <? length x)%nat eqn:I.
  - apply Nat.ltb_lt in I. rewrite (nth_error_nth' x 0 I). cbn.
    destruct t as [|a t]; [discriminate|reflexivity].
  - apply Nat.ltb_ge in I. apply nth_error_None in I. now rewrite I.
Qed.

Lemma interior_points_decide (t x : list R) (id_f : list nat) :
  interior_points t x id_f =
  if forallb (fun k => k <? length x * length t)%nat id_f
  then Ok (map (fun k => [nth (k mod length t) t 0; nth (k / length t) x 0])
               id_f)
  else Raise IndexError.
Proof.
  unfold interior_points. rewrite grid_columns_newaxis.
  rewrite !col0_newaxis. cbn [bind]. unfold take.
  rewrite !(traverse_decide _ (fun k => k <? length x * length t)%nat _
              IndexError id_f (index_map_seq_decide _ _)).
  destruct (forallb _ id_f); cbn [bind]; [|reflexivity].
  now rewrite hstack_columns.
Qed.

Lemma ic_points_decide (t x : list R) (id_ic : list nat) :
  ic_points t x id_ic =
  if ((0 <? length t) && forallb (fun i => i <? length x) id_ic)%nat
  then Ok (map (fun i => [nth i x 0]) id_ic,
           map (fun i => [nth 0 t 0; nth i x 0]) id_ic)
  else Raise IndexError.
Proof.
  unfold ic_points.
  change (meshgrid t x) with (fst (meshgrid t x), snd (meshgrid t x)).
  cbv iota. rewrite take_rows_col0_x_grid, take_rows_col0_t_grid.
  destruct ((0 <? length t) && forallb _ id_ic)%nat; cbn [bind];
    [|reflexivity].
  rewrite hstack_columns. unfold newaxis. now rewrite map_map.
Qed.

(** X8.  Sampling by index succeeds exactly when every index is in range,
    and raises [IndexError] otherwise: the interior indices must be below
    [n_x * n_t]; the IC indices must be below [n_x], and for the IC points
    the time axis must have a first point, even when no index is drawn.  No
    interior index at all gives an empty batch. *)
Theorem sampling_in_range_or_IndexError (t x : list R)
  (id_ic id_f : list nat) :
  interior_points t x id_f =
    (if forallb (fun k => k <? length x * length t)%nat id_f
     then Ok (map (fun k => [nth (k mod length t) t 0;
                             nth (k / length t) x 0]) id_f)
     else Raise IndexError) /\
  ic_points t x id_ic =
    (if ((0 <? length t) && forallb (fun i => i <? length x) id_ic)%nat
     then Ok (map (fun i => [nth i x 0]) id_ic,
              map (fun i => [nth 0 t 0; nth i x 0]) id_ic)
     else Raise IndexError) /\
  interior_points t x [] = Ok [] /\
  ic_points [] x id_ic = Raise IndexError.
Proof.
  split; [apply interior_points_decide|].
  split; [apply ic_points_decide|].
  now rewrite interior_points_decide, ic_points_decide.
Qed.

(** ** The axes of [main] (lines 106-113) *)

Lemma length_linspace (a b : R) (n : nat) : length (linspace a b n) = n.
Proof. unfold linspace. now rewrite length_map, length_seq. Qed.

Lemma nth_map_seq {A : Type} (f : nat -> A) (d : A) (n i : nat) :
  (i < n)%nat -> nth i (map f (seq 0 n)) d = f i.
Proof.
  intro I. rewrite (nth_indep _ d (f 0%nat))
    by now rewrite length_map, length_seq.
  rewrite (map_nth f (seq 0 n) 0%nat i). now rewrite seq_nth.
Qed.

Lemma nth_linspace (a b : R) (n i : nat) :
  (i < n)%nat ->
  nth i (linspace a b n) 0 = a + INR i * ((b - a) / INR (n - 1)).
Proof.
  intro I. unfold linspace. now rewrite nth_map_seq.
Qed.

Lemma linspace_first (a b : R) (n : nat) : nth 0 (linspace a b n) a = a.
Proof.
  destruct n as [|n]; [reflexivity|].
  unfold linspace. cbn [seq map nth INR]. ring.
Qed.

Lemma linspace_between (a b : R) (n i : nat) :
  a <= b -> (i < n)%nat -> a <= nth i (linspace a b n) 0 <= b.
Proof.
  intros AB I. rewrite nth_linspace by exact I.
  destruct (Nat.eq_dec (n - 1) 0) as [Z|Z].
  - replace i with 0%nat by lia. cbn [INR]. lra.
  - assert (M : 0 < INR (n - 1)) by (apply lt_0_INR; lia).
    assert (Hi : 0 <= INR i <= INR (n - 1)).
    { split; [apply pos_INR|apply le_INR; lia]. }
    assert (Q : 0 <= INR i / INR (n - 1) <= 1).
    { split.
      - apply Rmult_le_pos; [tauto|]. now apply Rlt_le, Rinv_0_lt_compat.
      - apply Rmult_le_reg_r with (r := INR (n - 1)); [exact M|].
        unfold Rdiv. rewrite Rmult_assoc, Rinv_l, Rmult_1_r by lra. lra. }
    replace (INR i * ((b - a) / INR (n - 1)))
      with (INR i / INR (n - 1) * (b - a)) by (field; lra).
    nra.
Qed.

(** ** What [main] trains on, evaluates and prints *)

Lemma Forall2_map_map {I A B : Type} (P : A -> B -> Prop)
  (f : I -> A) (g : I -> B) (s : list I) :
  (forall i, List.In i s -> P (f i) (g i)) -> Forall2 P (map f s) (map g s).
Proof.
  induction s as [|i s IH]; simpl; intro F; constructor.
  - apply F. now left.
  - apply IH. intros k K. apply F. now right.
Qed.

Lemma combine_app_same {A B : Type} (a c : list A) (b d : list B) :
  length a = length b ->
  combine (a ++ c) (b ++ d) = combine a b ++ combine c d.
Proof.
  revert b. induction a as [|x a IH]; intros [|y b] L; simpl in *;
    try discriminate; [reflexivity|].
  f_equal. apply IH. now injection L.
Qed.

(** The two lines an epoch prints, from its number and its two losses. *)
Definition epoch_lines (el : nat * (R * R)) : list line :=
  [LossLine (fst el) (fst (snd el)) (snd (snd el));
   TotalLine (fst el) (0.1 * fst (snd el) + 10 * snd (snd el))].

Section Coverage.
Context {rng : Type}.
Variable choice : rng -> nat -> nat -> result (list nat * rng).
Variable DNN_parameters : list R.

Lemma setup_x_test (c : Config) (g : rng) (s0 : State rng) :
  setup rng choice DNN_parameters c g = Ok s0 ->
  x_test s0 =
  map (fun k => [nth (k mod num_t c) (linspace 0 1.5 (num_t c)) 0;
                 nth (k / num_t c) (linspace (-1) 1 (num_x c)) 0])
      (seq 0 (num_x c * num_t c)).
Proof.
  unfold setup. cbv zeta. rewrite grid_columns_newaxis.
  destruct (choice g (num_x c) (num_i_train c)) as [[id_ic g1]|];
    [|discriminate]. cbn [bind].
  destruct (choice g1 (num_x c * num_t c) (num_f_train c))
    as [[id_f g2]|]; [|discriminate]. cbn [bind].
  destruct (ic_points _ _ id_ic) as [[x_ic xt]|]; [|discriminate].
  cbn [bind].
  destruct (interior_points _ _ id_f) as [xi|]; [|discriminate].
  cbn [bind]. intro E. injection E as <-. cbn [x_test].
  rewrite hstack_columns, !length_linspace. reflexivity.
Qed.

(** X9.  When the batches can be set up, every IC training point has time
    coordinate exactly 0 and a space coordinate in [[-2.625, 2.5]], its
    target is the initial profile at that space coordinate, and every
    interior training point [(t, x)] has [0 <= t <= 1.5] and
    [-2.625 <= x <= 2.5]. *)
Theorem training_points_in_domain (c : Config) (g : rng) :
  match setup rng choice DNN_parameters c g with
  | Ok s0 =>
      Forall2 (fun row u =>
                 exists xv, row = [0; xv] /\ -2.625 <= xv <= 2.5 /\
                            u = initial_profile xv)
              (x_ic_train s0) (u_ic_train s0) /\
      Forall (fun row =>
                exists tv xv, row = [tv; xv] /\ 0 <= tv <= 1.5 /\
                              -2.625 <= xv <= 2.5)
             (x_int_train s0)
  | Raise _ => True
  end.
Proof.
  destruct (setup rng choice DNN_parameters c g) as [s0|err] eqn:E;
    [|exact I].
  destruct (setup_result rng choice DNN_parameters c g s0 E)
    as (id_ic & g1 & id_f & g2 & x_ic & _ & _ & Pic & U & Pf & _).
  set (t := linspace 0 1.5 (num_t c)) in *.
  set (x := linspace (-2.625) 2.5 (num_x c)) in *.
  assert (Lt : length t = num_t c) by apply length_linspace.
  assert (Lx : length x = num_x c) by apply length_linspace.
  split.
  - rewrite ic_points_decide in Pic.
    destruct ((0 <? length t) && forallb _ id_ic)%nat eqn:F;
      [|discriminate].
    injection Pic as <- <-. rewrite U, IC_rows, map_map. cbn [nth].
    apply Forall2_map_map. intros i K.
    apply andb_true_iff in F as [_ F].
    rewrite forallb_forall in F. specialize (F i K).
    apply Nat.ltb_lt in F.
    exists (nth i x 0). unfold t. rewrite linspace_first.
    repeat split; try reflexivity;
      apply (linspace_between (-2.625) 2.5 (num_x c) i); try lra; lia.
  - rewrite interior_points_decide in Pf.
    destruct (forallb _ id_f) eqn:F; [|discriminate].
    injection Pf as <-. apply Forall_forall. intros row K.
    apply in_map_iff in K as (k & <- & K).
    rewrite forallb_forall in F. specialize (F k K).
    apply Nat.ltb_lt in F. rewrite Lt, Lx in *.
    assert (T : (0 < num_t c)%nat) by nia.
    eexists _, _. split; [reflexivity|]. split.
    + apply (linspace_between 0 1.5 (num_t c)); [lra|].
      apply Nat.mod_upper_bound. lia.
    + apply (linspace_between (-2.625) 2.5 (num_x c)); [lra|].
      apply Nat.Div0.div_lt_upper_bound. lia.
Qed.

(** X10.  When the batches can be set up, the dense evaluation grid has
    exactly [num_x * num_t] rows, in row-major order with [x] as the slow
    index, and every row [(t, x)] lies in the physical domain
    [[0, 1.5] x [-1, 1]]. *)
Theorem evaluation_grid_covers_domain (c : Config) (g : rng) :
  match setup rng choice DNN_parameters c g with
  | Ok s0 =>
      length (x_test s0) = (num_x c * num_t c)%nat /\
      x_test s0 =
        map (fun k => [nth (k mod num_t c) (linspace 0 1.5 (num_t c)) 0;
                       nth (k / num_t c) (linspace (-1) 1 (num_x c)) 0])
            (seq 0 (num_x c * num_t c)) /\
      Forall (fun row =>
                exists tv xv, row = [tv; xv] /\ 0 <= tv <= 1.5 /\
                              -1 <= xv <= 1)
             (x_test s0)
  | Raise _ => True
  end.
Proof.
  destruct (setup rng choice DNN_parameters c g) as [s0|err] eqn:E;
    [|exact I].
  rewrite (setup_x_test c g s0 E), length_map, length_seq.
  split; [reflexivity|]. split; [reflexivity|].
  apply Forall_forall. intros row K.
  apply in_map_iff in K as (k & <- & K). apply in_seq in K.
  assert (T : (0 < num_t c)%nat) by nia.
  eexists _, _. split; [reflexivity|]. split.
  - apply (linspace_between 0 1.5 (num_t c)); [lra|].
    apply Nat.mod_upper_bound. lia.
  - apply (linspace_between (-1) 1 (num_x c)); [lra|].
    apply Nat.Div0.div_lt_upper_bound. lia.
Qed.

Lemma training_loop_log (n : nat) (s : State rng) :
  exists losses : list (R * R),
    length losses = n /\
    stdout (training_loop n s) =
    stdout s ++ flat_map epoch_lines (combine (seq 1 n) losses).
Proof.
  induction n as [|n (losses & L & IH)].
  - exists []. split; [reflexivity|]. simpl. now rewrite app_nil_r.
  - exists (losses ++ [(loss_pde_value rng (training_loop n s),
                        loss_ic_value rng (training_loop n s))]).
    split; [rewrite length_app; simpl; lia|].
    rewrite training_loop_S, train_unfold. cbn [stdout]. rewrite IH.
    rewrite seq_S, combine_app_same by now rewrite length_seq.
    rewrite flat_map_app. cbn [combine flat_map epoch_lines fst snd app].
    now rewrite <- !app_assoc.
Qed.

(** X11.  A run of [main] prints the start line, then for each epoch
    [1 .. epochs], in order, the line of the two losses followed by the line
    of the total loss, which is [0.1 * loss_pde + 10 * loss_ic] of the two
    numbers just printed, and last the line of the training time. *)
Theorem main_output_log (c : Config) (g : rng) :
  match main_with rng choice DNN_parameters c g with
  | Ok (s, _) =>
      exists losses : list (R * R),
        length losses = epochs c /\
        stdout s =
        [Text "Start training..."] ++
        flat_map epoch_lines (combine (seq 1 (epochs c)) losses) ++
        [TrainingTime]
  | Raise _ => True
  end.
Proof.
  destruct (main_with rng choice DNN_parameters c g) as [[s m]|err] eqn:M;
    [|exact I].
  destruct (setup rng choice DNN_parameters c g) as [s0|err] eqn:E.
  - destruct (main_with_result rng choice DNN_parameters c g s0 E)
      as (m' & M').
    rewrite M' in M. injection M as <- _.
    destruct (setup_result rng choice DNN_parameters c g s0 E)
      as (_ & _ & _ & _ & _ & _ & _ & _ & _ & _ & _ & _ & _ & Out).
    destruct (training_loop_log (epochs c)
                (print rng (Text "Start training...") s0))
      as (losses & L & Log).
    exists losses. split; [exact L|].
    cbn [print stdout]. rewrite Log. cbn [print stdout]. rewrite Out.
    rewrite app_nil_l. now rewrite <- app_assoc.
  - unfold main_with in M. rewrite E in M. discriminate.
Qed.

Lemma main_with_mat (c : Config) (g : rng) (s0 : State rng) :
  setup rng choice DNN_parameters c g = Ok s0 ->
  let s := print rng TrainingTime
             (training_loop (epochs c)
                (print rng (Text "Start training...") s0)) in
  main_with rng choice DNN_parameters c g =
  Ok (s, {| mat_file := "Sod_Shock_Tube.mat";
            mat_x := linspace (-1) 1 (num_x c);
            mat_t := linspace 0 1.5 (num_t c);
            mat_u :=
              col 0 0 (map (map (value (env_of (parameters s)
                                               (x_int_train s))))
                           (forward theta_leaf DNN_init
                                    (constant (x_test s)))) |}).
Proof.
  intros E s. unfold main_with. rewrite E. cbn [bind].
  rewrite to_numpy_tensor. reflexivity.
Qed.

(** X12.  What [main] hands to [savemat] is the file name, the two axes of
    the physical domain, and as [u] the trained network evaluated on the
    dense grid in row-major order: entry [k] of [u] is the network, with the
    parameters training ended with, at time [t[k mod num_t]] and place
    [x[k div num_t]]. *)
Theorem saved_field_is_network_on_grid (c : Config) (g : rng) :
  match main_with rng choice DNN_parameters c g with
  | Ok (s, m) =>
      mat_file m = "Sod_Shock_Tube.mat"%string /\
      mat_x m = linspace (-1) 1 (num_x c) /\
      mat_t m = linspace 0 1.5 (num_t c) /\
      mat_u m =
        map (fun k => u_net (parameters s)
                            (nth (k mod num_t c) (mat_t m) 0)
                            (nth (k / num_t c) (mat_x m) 0))
            (seq 0 (num_x c * num_t c))
  | Raise _ => True
  end.
Proof.
  destruct (setup rng choice DNN_parameters c g) as [s0|err] eqn:E.
  - rewrite (main_with_mat c g s0 E). cbn [mat_file mat_x mat_t mat_u].
    repeat split.
    set (s := print rng TrainingTime _).
    assert (X : x_test s = x_test s0).
    { unfold s. cbn [print x_test].
      destruct (training_loop_same_data rng (epochs c)
                  (print rng (Text "Start training...") s0))
        as (_ & _ & _ & X & _). exact X. }
    rewrite value_forward, value_constant, forward_rows, X.
    rewrite (setup_x_test c g s0 E). unfold col. rewrite !map_map.
    apply map_ext. intro k. rewrite u_net_fun. reflexivity.
  - unfold main_with. rewrite E. exact I.
Qed.

End Coverage.

Lemma tanh_abs_le_1 (x : R) : Rabs (tanh x) <= 1.
Proof.
  pose proof (cosh_pos x) as C.
  assert (S1 : sinh x <= cosh x).
  { unfold sinh, cosh. pose proof (exp_pos (- x)). lra. }
  assert (S2 : - cosh x <= sinh x).
  { unfold sinh, cosh. pose proof (exp_pos x). lra. }
  unfold tanh. apply Rabs_le. split.
  - apply Rmult_le_reg_r with (r := cosh x); [exact C|].
    unfold Rdiv. rewrite Rmult_assoc, Rinv_l by lra. lra.
  - apply Rmult_le_reg_r with (r := cosh x); [exact C|].
    unfold Rdiv. rewrite Rmult_assoc, Rinv_l by lra. lra.
Qed.

Lemma sum_abs_nonneg (w : list R) : 0 <= sum_list (map Rabs w).
Proof.
  induction w as [|b w IH]; [simpl; lra|].
  rewrite map_cons, sum_list_R_cons. pose proof (Rabs_pos b). lra.
Qed.

Lemma dot_bounded (h w : list R) :
  Forall (fun a => Rabs a <= 1) h ->
  Rabs (dot h w) <= sum_list (map Rabs w).
Proof.
  intro B. revert w.
  induction B as [|a h Ba _ IH]; intro w.
  - unfold dot, zip_with. simpl. rewrite Rabs_R0. apply sum_abs_nonneg.
  - destruct w as [|b w].
    + unfold dot, zip_with. simpl. rewrite Rabs_R0. lra.
    + change (dot (a :: h) (b :: w)) with (a * b + dot h w).
      rewrite map_cons, sum_list_R_cons.
      eapply Rle_trans; [apply Rabs_triang|].
      apply Rplus_le_compat; [|apply IH].
      rewrite Rabs_mult. pose proof (Rabs_pos b).
      replace (Rabs b) with (1 * Rabs b) at 2 by ring.
      now apply Rmult_le_compat_r.
Qed.

(** X13.  Because the last hidden activation is a tanh and the output layer
    is linear, the output of the network is bounded over all inputs by the
    absolute values of the output layer's own parameters: its 30 weights
    (places 4740..4769 of the parameters) and its bias (place 4770). *)
Theorem network_output_bounded (params : list R) (t x : R) :
  Rabs (u_net params t x) <=
  sum_list (map (fun i => Rabs (nth (4740 + i) params 0)) (seq 0 30)) +
  Rabs (nth 4770 params 0).
Proof.
  rewrite u_net_fun. unfold u_fun, row_forward.
  rewrite DNN_init_final, fold_left_app.
  set (hid := fold_left _ (removelast (removelast DNN_init)) [t; x]).
  cbn [fold_left Module_forward Linear_forward final_layer out_features
       seq map nth].
  cbn [add Arith_R].
  eapply Rle_trans; [apply Rabs_triang|].
  apply Rplus_le_compat.
  - eapply Rle_trans.
    + apply dot_bounded. apply Forall_forall. intros a K.
      apply in_map_iff in K as (b & <- & _). apply tanh_abs_le_1.
    + unfold weight_row. rewrite map_map.
      cbn [offset in_features final_layer]. apply Req_le. f_equal.
  - unfold bias_at. cbn [offset in_features out_features final_layer].
    apply Req_le. reflexivity.
Qed.

(** ** [DNN.loss_ic] (lines 62-68) and the order of the samples *)

From Stdlib Require Import Permutation.

Lemma sum_list_permutation (a b : list R) :
  Permutation a b -> sum_list a = sum_list b.
Proof.
  induction 1 as [|x a b _ IH|x y a|a b c _ IH1 _ IH2].
  - reflexivity.
  - rewrite !sum_list_R_cons. now rewrite IH.
  - rewrite !sum_list_R_cons. lra.
  - now rewrite IH1.
Qed.

Lemma loss_ic_pairs (theta : nat -> R) (net : Sequential)
  (p : list (list R * R)) :
  loss_ic theta net (map fst p) (map snd p) =
  vmean (map (fun pr =>
                (nth 0 (row_forward theta net (fst pr)) 0 - snd pr) ^ 2)
             p).
Proof.
  unfold loss_ic. cbv zeta. rewrite forward_rows. unfold col.
  rewrite !map_map. unfold vpow, vsub. rewrite zip_with_map, map_map.
  reflexivity.
Qed.

(** X14.  The initial-condition loss does not depend on the order in which
    the IC points were drawn: reordering the points together with their
    targets leaves it unchanged. *)
Theorem loss_ic_order_irrelevant (e : env) (p q : list (list R * R)) :
  Permutation p q ->
  value e (loss_ic theta_leaf DNN_init (constant (map fst p))
                   (map Const (map snd p))) =
  value e (loss_ic theta_leaf DNN_init (constant (map fst q))
                   (map Const (map snd q))).
Proof.
  intro P. rewrite !value_loss_ic, !loss_ic_pairs. unfold vmean.
  rewrite !length_map, (Permutation_length P). f_equal.
  apply sum_list_permutation.
  now apply Permutation_map.
Qed.

Lemma loss_ic_order_irrelevant_witness :
  let e := env_of flat_parameters [[0.75; 0.25]] in
  value e (loss_ic theta_leaf DNN_init (constant [[0; -0.5]; [0; 2]])
                   (map Const [1; 0])) =
  value e (loss_ic theta_leaf DNN_init (constant [[0; 2]; [0; -0.5]])
                   (map Const [0; 1])).
Proof.
  exact (loss_ic_order_irrelevant
           (env_of flat_parameters [[0.75; 0.25]])
           [([0; -0.5], 1); ([0; 2], 0)] [([0; 2], 0); ([0; -0.5], 1)]
           (perm_swap _ _ _)).
Defined.
